(** * Wheat pest and disease detection front end: the batch workflow

    A shallow embedding of [src/types.ts] and [src/App.tsx]: the staging
    of selected images ([handleFiles]), the submission to the detection
    service ([handleProcessImages]), the reconciliation of the service's
    results with the staged images, the reset, and the part of
    [renderContent] that decides which controls exist in which status.

    React state is a record threaded through the handlers; the setters
    keep the names the component gives them.  What the handlers do to the
    browser (object URLs handed out by [URL.createObjectURL], requests
    issued by [fetch], [console.error]) is recorded in the same record. *)

From stdpp Require Import base list strings gmap pretty.

Open Scope string_scope.
Open Scope list_scope.

(** ** types.ts *)

Inductive ProcessStatus := IDLE | PROCESSING | SUCCESS | ERROR.

(** The DOM [File]: the fields the component reads, and its bytes.
    [lastModified] counts milliseconds since the epoch, an integer that
    [Number] holds exactly, so that a template literal shows it as its
    decimal numeral. *)
Record File := {
  name : string;
  type : string;
  lastModified : Z;
  content : list Byte.byte;
}.

Record ImageFile := {
  id : string;
  file : File;
  previewUrl : string;
}.

Record ProcessedImageResponse := {
  filename : string;
  processed_image_b64 : string;
  content_type : string;
}.

#[global] Instance ProcessStatus_eq_dec : EqDecision ProcessStatus.
Proof. solve_decision. Defined.
#[global] Instance byte_eq_dec : EqDecision Byte.byte := Byte.byte_eq_dec.
#[global] Instance File_eq_dec : EqDecision File.
Proof. solve_decision. Defined.
#[global] Instance ImageFile_eq_dec : EqDecision ImageFile.
Proof. solve_decision. Defined.

(** ** What a handler can throw

    [catch (err)] tells an [Error] (whose [message] it shows) from any
    other thrown value. *)
Inductive Thrown :=
  | ErrorObject (message : string)
  | NotAnError.

(** ** The request built by [handleProcessImages] *)

Record FormDataEntry := {
  entry_field : string;
  entry_blob : File;
  entry_filename : string;
}.

Record Request := {
  url : string;
  method : string;
  body : list FormDataEntry;
}.

(** ** The component's state and the browser around it *)

Record World := {
  (* useState *)
  selectedFiles : list ImageFile;
  processedFiles : list ImageFile;
  status : ProcessStatus;
  error : option string;
  isDragging : bool;
  modalImage : option ImageFile;
  (* import.meta.env.VITE_API_BASE_URL *)
  VITE_API_BASE_URL : option string;
  (* the blob URL store: the live object URLs and what they resolve to *)
  objectURLs : gmap string File;
  objectURLCounter : nat;
  (* requests handed to fetch, oldest first *)
  fetches : list Request;
  (* the handlers suspended at [await fetch], oldest first: each holds
     the [selectedFiles] its closure captured *)
  suspended : list (list ImageFile);
  (* console.error *)
  console : list Thrown;
}.

Definition setSelectedFiles (update : list ImageFile → list ImageFile) (w : World) : World :=
  {| selectedFiles := update (selectedFiles w);
     processedFiles := processedFiles w; status := status w; error := error w;
     isDragging := isDragging w; modalImage := modalImage w;
     VITE_API_BASE_URL := VITE_API_BASE_URL w;
     objectURLs := objectURLs w; objectURLCounter := objectURLCounter w;
     fetches := fetches w; suspended := suspended w;
     console := console w |}.

Definition setProcessedFiles (files : list ImageFile) (w : World) : World :=
  {| selectedFiles := selectedFiles w;
     processedFiles := files; status := status w; error := error w;
     isDragging := isDragging w; modalImage := modalImage w;
     VITE_API_BASE_URL := VITE_API_BASE_URL w;
     objectURLs := objectURLs w; objectURLCounter := objectURLCounter w;
     fetches := fetches w; suspended := suspended w;
     console := console w |}.

Definition setStatus (s : ProcessStatus) (w : World) : World :=
  {| selectedFiles := selectedFiles w;
     processedFiles := processedFiles w; status := s; error := error w;
     isDragging := isDragging w; modalImage := modalImage w;
     VITE_API_BASE_URL := VITE_API_BASE_URL w;
     objectURLs := objectURLs w; objectURLCounter := objectURLCounter w;
     fetches := fetches w; suspended := suspended w;
     console := console w |}.

Definition setError (e : option string) (w : World) : World :=
  {| selectedFiles := selectedFiles w;
     processedFiles := processedFiles w; status := status w; error := e;
     isDragging := isDragging w; modalImage := modalImage w;
     VITE_API_BASE_URL := VITE_API_BASE_URL w;
     objectURLs := objectURLs w; objectURLCounter := objectURLCounter w;
     fetches := fetches w; suspended := suspended w;
     console := console w |}.

Definition setIsDragging (b : bool) (w : World) : World :=
  {| selectedFiles := selectedFiles w;
     processedFiles := processedFiles w; status := status w; error := error w;
     isDragging := b; modalImage := modalImage w;
     VITE_API_BASE_URL := VITE_API_BASE_URL w;
     objectURLs := objectURLs w; objectURLCounter := objectURLCounter w;
     fetches := fetches w; suspended := suspended w;
     console := console w |}.

Definition setModalImage (m : option ImageFile) (w : World) : World :=
  {| selectedFiles := selectedFiles w;
     processedFiles := processedFiles w; status := status w; error := error w;
     isDragging := isDragging w; modalImage := m;
     VITE_API_BASE_URL := VITE_API_BASE_URL w;
     objectURLs := objectURLs w; objectURLCounter := objectURLCounter w;
     fetches := fetches w; suspended := suspended w;
     console := console w |}.

(** [URL.createObjectURL(file)]: a URL no earlier call returned, live
    until revoked.  The browser's [blob:<origin>/<uuid>] is a counter
    here. *)
Definition createObjectURL (f : File) (w : World) : string * World :=
  let u := "blob:" +:+ pretty (objectURLCounter w) in
  (u,
   {| selectedFiles := selectedFiles w;
      processedFiles := processedFiles w; status := status w; error := error w;
      isDragging := isDragging w; modalImage := modalImage w;
      VITE_API_BASE_URL := VITE_API_BASE_URL w;
      objectURLs := <[u := f]> (objectURLs w);
      objectURLCounter := S (objectURLCounter w);
      fetches := fetches w; suspended := suspended w;
     console := console w |}).

(** [await fetch(url, {method, body})], up to the point where the caller
    suspends: the request goes out and the caller waits with what its
    closure captured. *)
Definition await_fetch (captured : list ImageFile) (r : Request) (w : World) : World :=
  {| selectedFiles := selectedFiles w;
     processedFiles := processedFiles w; status := status w; error := error w;
     isDragging := isDragging w; modalImage := modalImage w;
     VITE_API_BASE_URL := VITE_API_BASE_URL w;
     objectURLs := objectURLs w; objectURLCounter := objectURLCounter w;
     fetches := fetches w ++ [r]; suspended := suspended w ++ [captured];
     console := console w |}.

Definition console_error (e : Thrown) (w : World) : World :=
  {| selectedFiles := selectedFiles w;
     processedFiles := processedFiles w; status := status w; error := error w;
     isDragging := isDragging w; modalImage := modalImage w;
     VITE_API_BASE_URL := VITE_API_BASE_URL w;
     objectURLs := objectURLs w; objectURLCounter := objectURLCounter w;
     fetches := fetches w; suspended := suspended w;
     console := console w ++ [e] |}.

(** The component as first rendered. *)
Definition mount (env : option string) : World :=
  {| selectedFiles := []; processedFiles := []; status := IDLE; error := None;
     isDragging := false; modalImage := None;
     VITE_API_BASE_URL := env;
     objectURLs := ∅; objectURLCounter := 0;
     fetches := []; suspended := []; console := [] |}.

(** ** App.tsx *)

(** [import.meta.env.VITE_API_BASE_URL || "http://127.0.0.1:8000"] *)
Definition API_URL (w : World) : string :=
  match VITE_API_BASE_URL w with
  | Some u => if decide (u = "") then "http://127.0.0.1:8000" else u
  | None => "http://127.0.0.1:8000"
  end.

Definition isProcessing (w : World) : bool :=
  bool_decide (status w = PROCESSING).

Definition hasFilesSelected (w : World) : bool :=
  bool_decide (0 < length (selectedFiles w)).

(** [`${file.name}-${file.lastModified}`], for a [lastModified] that a
    Number holds exactly (up to 2^53 either way): there the template
    shows the decimal numeral. *)
Definition file_id (f : File) : string :=
  name f +:+ "-" +:+ pretty (lastModified f).

(** [.map((file) => ({ id, file, previewUrl: URL.createObjectURL(file) }))]:
    one object URL per file, in the order of the files. *)
Fixpoint toImageFiles (files : list File) (w : World) : list ImageFile * World :=
  match files with
  | [] => ([], w)
  | f :: rest =>
      let '(u, w1) := createObjectURL f w in
      let '(imgs, w2) := toImageFiles rest w1 in
      ({| id := file_id f; file := f; previewUrl := u |} :: imgs, w2)
  end.

(** [files] is [FileList | null]. *)
Definition handleFiles (files : option (list File)) (w : World) : World :=
  match files with
  | None => w
  | Some files =>
      let '(newImageFiles, w1) :=
        toImageFiles (filter (λ f : File, String.prefix "image/" (type f)) files) w in
      (* Prevent duplicates *)
      setSelectedFiles
        (λ prev,
           let existingIds : gset string := list_to_set (id <$> prev) in
           let trulyNewFiles :=
             filter (λ f : ImageFile, id f ∉ existingIds) newImageFiles in
           prev ++ trulyNewFiles)
        w1
  end.

Definition handleDragOver (w : World) : World := setIsDragging true w.
Definition handleDragLeave (w : World) : World := setIsDragging false w.
Definition handleDrop (files : option (list File)) (w : World) : World :=
  handleFiles files (setIsDragging false w).
Definition handleFileChange (files : option (list File)) (w : World) : World :=
  handleFiles files w.

Definition handleReset (w : World) : World :=
  setError None (setStatus IDLE (setProcessedFiles [] (setSelectedFiles (λ _, []) w))).

(** The [onClick] of the "Clear Selection" button. *)
Definition clearSelection (w : World) : World :=
  setSelectedFiles (λ _, []) w.

(** ** Completions: a value, or something thrown *)

Inductive Completion (A : Type) :=
  | Normal (a : A)
  | Throw (e : Thrown).
Arguments Normal {A} a.
Arguments Throw {A} e.

#[global] Instance Completion_ret : MRet Completion := λ A a, Normal a.
#[global] Instance Completion_bind : MBind Completion := λ A B k m,
  match m with
  | Normal a => k a
  | Throw e => Throw e
  end.

(** ** What [response.json()] yields

    A number stands as the text [ToString] gives for it, which is all
    the component can observe of it ([0] and [-0] both read ["0"]).
    The members of an object are in the order of the text; where a key
    occurs twice the later member is the property.  Strings are byte
    strings: the component concatenates and compares them, nothing
    more. *)
#[warnings="-register-all"] Inductive JSON :=
  | JNull
  | JBool (b : bool)
  | JNumber (text : string)
  | JString (s : string)
  | JArray (items : list JSON)
  | JObject (members : list (string * JSON)).

(** A JavaScript value here: [undefined], or a value that came out of
    JSON. *)
Definition JSValue := option JSON.

(** The texts of the [TypeError]s the engine raises; they differ from
    engine to engine. *)
Record Engine := {
  cannot_read_property_of_null : string → string;
  is_not_a_function : string → string;
  cannot_convert_to_primitive : string;
}.

Definition V8 : Engine := {|
  cannot_read_property_of_null p :=
    "Cannot read properties of null (reading '" +:+ p +:+ "')";
  is_not_a_function e := e +:+ " is not a function";
  cannot_convert_to_primitive := "Cannot convert object to primitive value";
|}.

(** The own property [p] of an object parsed from JSON. *)
Fixpoint own_property (p : string) (members : list (string * JSON)) : JSValue :=
  match members with
  | [] => None
  | (k, v) :: rest =>
      match own_property p rest with
      | Some later => Some later
      | None => if decide (k = p) then Some v else None
      end
  end.

(** [v.p], for the names the component reads ([detail], [filename],
    [processed_image_b64], [content_type]): no prototype defines them,
    so only an object's own members can. *)
Definition Get (E : Engine) (v : JSON) (p : string) : Completion JSValue :=
  match v with
  | JNull => Throw (ErrorObject (cannot_read_property_of_null E p))
  | JObject members => Normal (own_property p members)
  | _ => Normal None
  end.

Definition ToBoolean (v : JSValue) : bool :=
  match v with
  | None => false
  | Some JNull => false
  | Some (JBool b) => b
  | Some (JNumber text) => negb (bool_decide (text = "0"))
  | Some (JString s) => negb (bool_decide (s = ""))
  | Some (JArray _) => true
  | Some (JObject _) => true
  end.

(** [ToString] of a value that came out of JSON.  An array joins its
    elements with commas, [null] elements reading as the empty string;
    an object reads ["[object Object]"] unless a member named
    [toString] hides the inherited method, and then nothing callable
    is left to convert it. *)
Fixpoint ToString (E : Engine) (v : JSON) : Completion string :=
  match v with
  | JNull => Normal "null"
  | JBool b => Normal (if b then "true" else "false")
  | JNumber text => Normal text
  | JString s => Normal s
  | JArray items =>
      (fix join (xs : list JSON) : Completion string :=
         match xs with
         | [] => Normal ""
         | x :: rest =>
             s ← match x with JNull => Normal "" | _ => ToString E x end;
             match rest with
             | [] => Normal s
             | _ => r ← join rest; Normal (s +:+ "," +:+ r)
             end
         end) items
  | JObject members =>
      match own_property "toString" members with
      | Some _ => Throw (ErrorObject (cannot_convert_to_primitive E))
      | None => Normal "[object Object]"
      end
  end.

(** [`${v}`], [new Error(v)] and the [USVString] argument of [new File]. *)
Definition ToStringV (E : Engine) (v : JSValue) : Completion string :=
  match v with
  | None => Normal "undefined"
  | Some j => ToString E j
  end.

(** [s === v] for a string [s]. *)
Definition strictly_equals (s : string) (v : JSValue) : bool :=
  match v with
  | Some (JString t) => bool_decide (s = t)
  | _ => false
  end.

(** [Array.prototype.find] with a predicate that may throw. *)
Fixpoint Array_find {A} (p : A → Completion bool) (l : list A) : Completion (option A) :=
  match l with
  | [] => Normal None
  | x :: rest => b ← p x; if b : bool then Normal (Some x) else Array_find p rest
  end.

(** [Array.prototype.map] with a callback that may throw; [index] is
    the index of the first element of [l]. *)
Fixpoint Array_map {A B} (f : A → nat → Completion B) (index : nat) (l : list A)
  : Completion (list B) :=
  match l with
  | [] => Normal []
  | x :: rest => y ← f x index; ys ← Array_map f (S index) rest; Normal (y :: ys)
  end.

(** ** The response of the service *)

Record Response := {
  response_status : nat;
  (* what [response.json()] settles with *)
  response_json : Completion JSON;
}.

Definition response_ok (r : Response) : bool :=
  bool_decide (200 ≤ response_status r ≤ 299)%nat.

(** [fetch] rejects (no response), or resolves with a response. *)
Inductive FetchOutcome :=
  | Rejected (e : Thrown)
  | Resolved (r : Response).

(** [new File([], fileName)], created at time [now]. *)
Definition new_File (fileName : string) (now : Z) : File :=
  {| name := fileName; type := ""; lastModified := now; content := [] |}.

(** ** handleProcessImages *)

(** Up to [await fetch(...)]. *)
Definition handleProcessImages (w : World) : World :=
  if negb (hasFilesSelected w) then w
  else
    let w1 := setError None (setStatus PROCESSING w) in
    let formData :=
      (λ imageFile : ImageFile,
         {| entry_field := "files"; entry_blob := file imageFile;
            entry_filename := name (file imageFile) |}) <$> selectedFiles w1 in
    await_fetch (selectedFiles w)
      {| url := API_URL w1 +:+ "/api/process"; method := "POST"; body := formData |}
      w1.

(** The callback of [processedData.map]; [selectedFiles] is the list
    the handler's closure captured, [now index] the clock when the
    placeholder file of the element at [index] is made. *)
Definition to_processed_file (E : Engine) (now : nat → Z) (selectedFiles : list ImageFile)
    (item : JSON) (index : nat) : Completion ImageFile :=
  originalFile ←
    Array_find
      (λ f : ImageFile,
         fn ← Get E item "filename"; mret (strictly_equals (name (file f)) fn))
      selectedFiles;
  id_ ←
    match originalFile with
    | Some o => Normal (id o)
    | None =>
        fn ← Get E item "filename"; s ← ToStringV E fn;
        mret (s +:+ "-" +:+ pretty index)
    end;
  file_ ←
    match originalFile with
    | Some o => Normal (file o)
    | None =>
        fn ← Get E item "filename"; s ← ToStringV E fn;
        mret (new_File s (now index))
    end;
  ct ← Get E item "content_type"; cts ← ToStringV E ct;
  b64 ← Get E item "processed_image_b64"; b64s ← ToStringV E b64;
  mret {| id := id_; file := file_;
          previewUrl := "data:" +:+ cts +:+ ";base64," +:+ b64s |}.

(** [processedData.map(...)]: only an array has [map]. *)
Definition processedData_map (E : Engine) (now : nat → Z) (selectedFiles : list ImageFile)
    (processedData : JSON) : Completion (list ImageFile) :=
  match processedData with
  | JArray items => Array_map (to_processed_file E now selectedFiles) 0 items
  | JNull => Throw (ErrorObject (cannot_read_property_of_null E "map"))
  | _ => Throw (ErrorObject (is_not_a_function E "processedData.map"))
  end.

(** The body of [try], from the point where [fetch] settles. *)
Definition try_block (E : Engine) (now : nat → Z) (selectedFiles : list ImageFile)
    (o : FetchOutcome) : Completion (list ImageFile) :=
  response ← match o with Rejected e => Throw e | Resolved r => Normal r end;
  if negb (response_ok response) then
    let errorData :=
      match response_json response with
      | Normal j => j
      | Throw _ =>
          JObject [("detail", JString "An unknown error occurred on the server.")]
      end in
    detail ← Get E errorData "detail";
    message ←
      (if ToBoolean detail then ToStringV E detail
       else Normal ("Server responded with status: " +:+ pretty (response_status response)));
    Throw (ErrorObject message)
  else
    processedData ← response_json response;
    processedData_map E now selectedFiles processedData.

(** The rest of [handleProcessImages], run when [fetch] settles, in
    the state the component has by then. *)
Definition handleProcessImages_resume (E : Engine) (now : nat → Z)
    (selectedFiles : list ImageFile) (o : FetchOutcome) (w : World) : World :=
  match try_block E now selectedFiles o with
  | Normal newProcessedFiles =>
      setStatus SUCCESS (setProcessedFiles newProcessedFiles w)
  | Throw err =>
      let errorMessage :=
        match err with
        | ErrorObject message => message
        | NotAnError => "Failed to process images. Please check the backend server."
        end in
      console_error err (setStatus ERROR (setError (Some errorMessage) w))
  end.

(** ** The reconciliation as [types.ts] types it

    [processedData] is declared [ProcessedImageResponse[]]; on values
    of that type the callback cannot throw and is this function. *)
Definition processed_file (now : nat → Z) (selectedFiles : list ImageFile)
    (index : nat) (item : ProcessedImageResponse) : ImageFile :=
  let originalFile :=
    List.find (λ f : ImageFile, bool_decide (name (file f) = filename item))
      selectedFiles in
  {| id := match originalFile with
           | Some o => id o
           | None => filename item +:+ "-" +:+ pretty index
           end;
     file := match originalFile with
             | Some o => file o
             | None => new_File (filename item) (now index)
             end;
     previewUrl :=
       "data:" +:+ content_type item +:+ ";base64," +:+ processed_image_b64 item |}.

Definition reconcile (now : nat → Z) (selectedFiles : list ImageFile)
    (processedData : list ProcessedImageResponse) : list ImageFile :=
  imap (processed_file now selectedFiles) processedData.

(** A JSON value that is a [ProcessedImageResponse]. *)
Definition is_response (j : JSON) (r : ProcessedImageResponse) : Prop :=
  match j with
  | JObject members =>
      own_property "filename" members = Some (JString (filename r)) ∧
      own_property "processed_image_b64" members = Some (JString (processed_image_b64 r)) ∧
      own_property "content_type" members = Some (JString (content_type r))
  | _ => False
  end.

Definition to_JSON (r : ProcessedImageResponse) : JSON :=
  JObject [("filename", JString (filename r));
           ("processed_image_b64", JString (processed_image_b64 r));
           ("content_type", JString (content_type r))].

(** ** renderContent: which controls exist

    Of the JSX only the controls and what they are given: the rest is
    layout. *)
Inductive Control :=
  | Spinner
  | UploadLabel
  | ErrorText (message : string)
  | ImageGrid (images : list ImageFile) (isResult : bool)
  | ClearSelectionButton
  | ProcessButton (disabled : bool)
  | ProcessMoreButton.

#[global] Instance Control_eq_dec : EqDecision Control.
Proof. solve_decision. Defined.

Definition renderContent (w : World) : list Control :=
  match status w with
  | PROCESSING => [Spinner]
  | SUCCESS => [ImageGrid (processedFiles w) true; ProcessMoreButton]
  | _ => (* IDLE or ERROR *)
      [UploadLabel]
      ++ match error w with
         | Some message => if decide (message = "") then [] else [ErrorText message]
         | None => []
         end
      ++ (if hasFilesSelected w
          then [ImageGrid (selectedFiles w) false; ClearSelectionButton;
                ProcessButton (isProcessing w)]
          else [])
  end.

(** ** The component as a transition system

    What can happen to a mounted component: the user acts on a control
    that is rendered (and not disabled), or a pending [fetch] settles. *)
Inductive Event :=
  | DragOver
  | DragLeave
  | Drop (files : option (list File))
  | FileChange (files : option (list File))
  | ClickClearSelection
  | ClickProcess
  | ClickProcessMore
  | ClickImage (image : ImageFile)
  | CloseModal
  | FetchSettles (k : nat) (o : FetchOutcome) (now : nat → Z).

Definition enabled (ev : Event) (w : World) : Prop :=
  match ev with
  | DragOver | DragLeave | Drop _ | FileChange _ => UploadLabel ∈ renderContent w
  | ClickClearSelection => ClearSelectionButton ∈ renderContent w
  | ClickProcess => ProcessButton false ∈ renderContent w
  | ClickProcessMore => ProcessMoreButton ∈ renderContent w
  | ClickImage image =>
      ∃ images, ImageGrid images true ∈ renderContent w ∧ image ∈ images
  | CloseModal => is_Some (modalImage w)
  | FetchSettles k _ _ => k < length (suspended w)
  end.

Definition resumed (k : nat) (w : World) : World :=
  {| selectedFiles := selectedFiles w;
     processedFiles := processedFiles w; status := status w; error := error w;
     isDragging := isDragging w; modalImage := modalImage w;
     VITE_API_BASE_URL := VITE_API_BASE_URL w;
     objectURLs := objectURLs w; objectURLCounter := objectURLCounter w;
     fetches := fetches w; suspended := delete k (suspended w);
     console := console w |}.

Definition handle (E : Engine) (ev : Event) (w : World) : World :=
  match ev with
  | DragOver => handleDragOver w
  | DragLeave => handleDragLeave w
  | Drop files => handleDrop files w
  | FileChange files => handleFileChange files w
  | ClickClearSelection => clearSelection w
  | ClickProcess => handleProcessImages w
  | ClickProcessMore => handleReset w
  | ClickImage image => setModalImage (Some image) w
  | CloseModal => setModalImage None w
  | FetchSettles k o now =>
      match suspended w !! k with
      | Some captured => handleProcessImages_resume E now captured o (resumed k w)
      | None => w
      end
  end.

Inductive reachable (E : Engine) (env : option string) : World → Prop :=
  | reachable_mount : reachable E env (mount env)
  | reachable_step w ev :
      reachable E env w → enabled ev w → reachable E env (handle E ev w).

(** * Vocabulary of the properties *)

Definition ids (l : list ImageFile) : list string := id <$> l.

Definition is_image (f : File) : Prop := String.prefix "image/" (type f).

(** Two worlds with the same React state apart from [selectedFiles]. *)
Definition same_workflow (w w' : World) : Prop :=
  processedFiles w' = processedFiles w ∧ status w' = status w ∧
  error w' = error w ∧ modalImage w' = modalImage w ∧
  fetches w' = fetches w ∧ suspended w' = suspended w ∧
  console w' = console w ∧ VITE_API_BASE_URL w' = VITE_API_BASE_URL w.

(** The candidates of a call: the image files of the input, each with
    its id and a fresh object URL. *)
Definition candidates (files : list File) (w : World) : list ImageFile :=
  (toImageFiles (filter is_image files) w).1.

(** [`data:${item.content_type};base64,${item.processed_image_b64}`] *)
Definition data_uri (item : ProcessedImageResponse) : string :=
  "data:" +:+ content_type item +:+ ";base64," +:+ processed_image_b64 item.


(** While PROCESSING exactly one handler waits for its [fetch], and the
    error message is cleared; otherwise none waits. *)
Definition in_flight (w : World) : Prop :=
  match status w with
  | PROCESSING => length (suspended w) = 1 ∧ error w = None
  | _ => suspended w = []
  end.

(** ** Sample data *)

Definition a_png : File :=
  {| name := "a.png"; type := "image/png"; lastModified := 1700000000000;
     content := [] |}.

Definition b_png : File :=
  {| name := "b.png"; type := "image/png"; lastModified := 1700000000001;
     content := [] |}.

Definition notes_txt : File :=
  {| name := "notes.txt"; type := "text/plain"; lastModified := 1700000000002;
     content := [] |}.

Definition epoch : nat → Z := λ _, 0%Z.

Definition staged_a : ImageFile :=
  {| id := "a.png-1700000000000"; file := a_png; previewUrl := "blob:0" |}.

Definition staged_b : ImageFile :=
  {| id := "b.png-1700000000001"; file := b_png; previewUrl := "blob:1" |}.

Definition result_for (fn : string) : ProcessedImageResponse :=
  {| filename := fn; processed_image_b64 := "AA=="; content_type := "image/png" |}.

Definition ok_a_png : Response :=
  {| response_status := 200;
     response_json :=
       Normal
         (JArray
            [JObject [("filename", JString "a.png");
                      ("processed_image_b64", JString "AA==");
                      ("content_type", JString "image/png")]]) |}.

Definition model_unavailable : Response :=
  {| response_status := 500;
     response_json := Normal (JObject [("detail", JString "model unavailable")]) |}.

Definition processing_a_png : World :=
  handle V8 ClickProcess (handle V8 (Drop (Some [a_png])) (mount None)).

(** ** components/ImageGrid.tsx

    Of a tile: its React [key], the [src] and [alt] of its picture, the
    caption shown on hover, whether it is shown as clickable, and
    whether it bears the check mark. *)
Record Tile := {
  tile_key : string;
  tile_src : string;
  tile_alt : string;
  tile_caption : string;
  tile_clickable : bool;
  tile_badge : bool;
}.

(** [isResult] defaults to [false] where the caller leaves it out;
    [onImageClick] is optional. *)
Definition ImageGrid_tiles (images : list ImageFile) (isResult : bool)
    (onImageClick : option (ImageFile → World → World)) : list Tile :=
  let isClickable := isResult && bool_decide (is_Some onImageClick) in
  (λ imageFile : ImageFile,
     {| tile_key := id imageFile;
        tile_src := previewUrl imageFile;
        tile_alt := name (file imageFile);
        tile_caption := name (file imageFile);
        tile_clickable := isClickable;
        tile_badge := isResult |}) <$> images.

(** [onClick={() => isClickable && onImageClick(imageFile)}] *)
Definition ImageGrid_onClick (isResult : bool)
    (onImageClick : option (ImageFile → World → World))
    (imageFile : ImageFile) (w : World) : World :=
  match onImageClick with
  | Some handler => if isResult then handler imageFile w else w
  | None => w
  end.

(** The two grids of [renderContent]. *)
Definition preview_grid (w : World) : list Tile :=
  ImageGrid_tiles (selectedFiles w) false None.

Definition result_grid (w : World) : list Tile :=
  ImageGrid_tiles (processedFiles w) true (Some (λ image, setModalImage (Some image))).

(** ** components/ImageModal.tsx

    The elements of the modal, and where a click on one of them goes:
    from the element up through its ancestors, running the [onClick] of
    each, until one stops the propagation. *)
Inductive ModalElement :=
  | Backdrop
  | Panel
  | CloseButton
  | CloseIconGlyph
  | Heading
  | Picture.

Inductive ClickHandler :=
  | CallOnClose
  | StopPropagation.

Definition ImageModal_onClick (e : ModalElement) : option ClickHandler :=
  match e with
  | Backdrop => Some CallOnClose
  | Panel => Some StopPropagation
  | CloseButton => Some CallOnClose
  | CloseIconGlyph | Heading | Picture => None
  end.

(** The element and its ancestors, innermost first. *)
Definition ImageModal_path (e : ModalElement) : list ModalElement :=
  match e with
  | Backdrop => [Backdrop]
  | Panel => [Panel; Backdrop]
  | CloseButton => [CloseButton; Panel; Backdrop]
  | CloseIconGlyph => [CloseIconGlyph; CloseButton; Panel; Backdrop]
  | Heading => [Heading; Panel; Backdrop]
  | Picture => [Picture; Panel; Backdrop]
  end.

Fixpoint bubble {S} (onClose : S → S) (path : list ModalElement) (s : S) : S :=
  match path with
  | [] => s
  | e :: ancestors =>
      match ImageModal_onClick e with
      | Some CallOnClose => bubble onClose ancestors (onClose s)
      | Some StopPropagation => s
      | None => bubble onClose ancestors s
      end
  end.

Definition ImageModal_click {S} (onClose : S → S) (target : ModalElement) (s : S) : S :=
  bubble onClose (ImageModal_path target) s.

(** [alt={`Processed result for ${image.file.name}`}] *)
Definition ImageModal_alt (image : ImageFile) : string :=
  "Processed result for " +:+ name (file image).

(** ** Invariants of the states the component can reach *)

Definition blob_url (k : nat) : string := "blob:" +:+ pretty k.

(** Every live object URL is one that [createObjectURL] handed out. *)
Definition urls_fresh (w : World) : Prop :=
  ∀ u, is_Some (objectURLs w !! u) →
       ∃ k, k < objectURLCounter w ∧ u = blob_url k.

(** Every staged entry is an image file under its id, with a live
    preview of its own that resolves to the file. *)
Definition staged_ok (w : World) : Prop :=
  Forall (λ f, is_image (file f) ∧ id f = file_id (file f) ∧
               objectURLs w !! previewUrl f = Some (file f))
    (selectedFiles w) ∧
  NoDup (previewUrl <$> selectedFiles w).

(** Handlers that leave the staged files and the blob URL store. *)
Definition same_staging (w w' : World) : Prop :=
  selectedFiles w' = selectedFiles w ∧
  objectURLs w' = objectURLs w ∧
  objectURLCounter w' = objectURLCounter w.

(** A request as [handleProcessImages] builds it from staged images. *)
Definition good_request (env : option string) (r : Request) : Prop :=
  method r = "POST" ∧
  url r = API_URL (mount env) +:+ "/api/process" ∧
  body r ≠ [] ∧
  Forall (λ e, entry_field e = "files" ∧
               entry_filename e = name (entry_blob e) ∧
               is_image (entry_blob e))
    (body r).

Definition data_preview (f : ImageFile) : Prop :=
  String.prefix "data:" (previewUrl f).

Definition workflow_ok (env : option string) (w : World) : Prop :=
  VITE_API_BASE_URL w = env ∧
  (is_Some (error w) ↔ status w = ERROR) ∧
  (status w ≠ SUCCESS → processedFiles w = []) ∧
  match status w with
  | PROCESSING => suspended w = [selectedFiles w] ∧ selectedFiles w ≠ []
  | _ => suspended w = []
  end ∧
  Forall (good_request env) (fetches w) ∧
  Forall data_preview (processedFiles w) ∧
  (∀ image, modalImage w = Some image → data_preview image).

(** The moves of the status that the view and the handlers allow. *)
Definition transition (s s' : ProcessStatus) : bool :=
  match s, s' with
  | IDLE, IDLE | IDLE, PROCESSING => true
  | PROCESSING, PROCESSING | PROCESSING, SUCCESS | PROCESSING, ERROR => true
  | SUCCESS, SUCCESS | SUCCESS, IDLE => true
  | ERROR, ERROR | ERROR, PROCESSING => true
  | _, _ => false
  end.

(** No hyphen occurs in the string. *)
Fixpoint dash_free (s : string) : bool :=
  match s with
  | EmptyString => true
  | String c rest => negb (bool_decide (String c "" = "-")) && dash_free rest
  end.

(** A JSON value in which the component finds none of the three fields
    of a result. *)
Definition lacks_fields (E : Engine) (item : JSON) : Prop :=
  Get E item "filename" = Normal None ∧
  Get E item "content_type" = Normal None ∧
  Get E item "processed_image_b64" = Normal None.

(** What the component makes of such a value at [index]. *)
Definition undefined_entry (now : nat → Z) (index : nat) : ImageFile :=
  {| id := "undefined-" +:+ pretty index;
     file := new_File "undefined" (now index);
     previewUrl := "data:undefined;base64,undefined" |}.

Ltac rendered :=
  intros;
  repeat match goal with
         | H : _ ∈ _ ++ _ |- _ => apply elem_of_app in H as [H|H]
         | H : _ ∈ _ :: _ |- _ => apply elem_of_cons in H as [H|H]
         | H : _ ∈ [] |- _ => by apply elem_of_nil in H
         | H : context [match ?x with _ => _ end] |- _ => destruct x eqn:?
         end;
  try discriminate; auto.

(** * Properties *)

(** ** Staging: handleFiles *)

Lemma toImageFiles_cons f rest w :
  toImageFiles (f :: rest) w =
  ({| id := file_id f; file := f; previewUrl := (createObjectURL f w).1 |}
     :: (toImageFiles rest (createObjectURL f w).2).1,
   (toImageFiles rest (createObjectURL f w).2).2).
Proof. simpl. by destruct (toImageFiles rest _). Qed.

Lemma toImageFiles_frame files w :
  selectedFiles (toImageFiles files w).2 = selectedFiles w ∧
  isDragging (toImageFiles files w).2 = isDragging w ∧
  same_workflow w (toImageFiles files w).2.
Proof.
  unfold same_workflow.
  revert w. induction files as [|f rest IH]; intros w.
  - by repeat split.
  - rewrite toImageFiles_cons. apply (IH (createObjectURL f w).2).
Qed.

Lemma toImageFiles_images files w :
  file <$> (toImageFiles files w).1 = files ∧
  Forall (λ img, id img = file_id (file img)) (toImageFiles files w).1.
Proof.
  revert w. induction files as [|f rest IH]; intros w.
  - split; [done | constructor].
  - rewrite toImageFiles_cons.
    destruct (IH (createObjectURL f w).2) as [Hfiles Hids].
    split; [by simpl; f_equal | by constructor].
Qed.

Lemma toImageFiles_live files w :
  dom (objectURLs w) ⊆ dom (objectURLs (toImageFiles files w).2).
Proof.
  revert w. induction files as [|f rest IH]; intros w; [done|].
  rewrite toImageFiles_cons.
  etrans; [|exact (IH (createObjectURL f w).2)].
  simpl. rewrite dom_insert. set_solver.
Qed.

Lemma handleFiles_selectedFiles files w :
  selectedFiles (handleFiles (Some files) w) =
  selectedFiles w ++ filter (λ c, id c ∉ ids (selectedFiles w)) (candidates files w).
Proof.
  unfold handleFiles, candidates, is_image.
  pose proof (toImageFiles_frame (filter (λ f : File, String.prefix "image/" (type f)) files) w)
    as [Hsel _].
  destruct (toImageFiles _ w) as [imgs w1]. simpl in *. rewrite Hsel.
  f_equal. apply list_filter_iff. intros c. unfold ids.
  by rewrite elem_of_list_to_set.
Qed.

Lemma handleFiles_frame files w :
  same_workflow w (handleFiles files w) ∧
  dom (objectURLs w) ⊆ dom (objectURLs (handleFiles files w)).
Proof.
  destruct files as [files|]; [|by repeat split].
  unfold handleFiles.
  pose proof (toImageFiles_frame (filter (λ f : File, String.prefix "image/" (type f)) files) w)
    as (_ & _ & Hsame).
  pose proof (toImageFiles_live (filter (λ f : File, String.prefix "image/" (type f)) files) w)
    as Hlive.
  destruct (toImageFiles _ w) as [imgs w1]. simpl in *. done.
Qed.

Lemma candidates_files files w :
  file <$> candidates files w = filter is_image files.
Proof. apply toImageFiles_images. Qed.

Lemma candidates_ids files w :
  ids (candidates files w) = file_id <$> filter is_image files.
Proof.
  unfold candidates, ids.
  destruct (toImageFiles_images (filter is_image files) w) as [Hf Hid].
  rewrite <- Hf at 2. rewrite <- list_fmap_compose. clear Hf.
  induction Hid as [|c l Hc _ IH]; [done|].
  rewrite !fmap_cons, IH. simpl. by rewrite Hc.
Qed.

Lemma filter_by_id (X : list string) (cands : list ImageFile) :
  Forall (λ c, id c = file_id (file c)) cands →
  file <$> filter (λ c, id c ∉ X) cands
  = filter (λ f, file_id f ∉ X) (file <$> cands).
Proof.
  induction 1 as [|c l Hc _ IH]; [done|].
  rewrite fmap_cons, !filter_cons, <- Hc.
  destruct (decide (id c ∉ X)); [rewrite fmap_cons|]; by rewrite IH.
Qed.

Lemma Forall_filter_id (X : list string) (cands : list ImageFile) :
  Forall (λ c, id c = file_id (file c)) cands →
  Forall (λ c, id c = file_id (file c)) (filter (λ c, id c ∉ X) cands).
Proof.
  intros H. apply Forall_forall. intros c Hc.
  apply list_elem_of_filter in Hc as [_ Hc].
  by apply (proj1 (Forall_forall _ _) H).
Qed.

(** The entries a call appends: the image files of the input whose id
    the store does not hold yet, in the order of the input. *)
Lemma handleFiles_survivors files w :
  ∃ survivors,
    selectedFiles (handleFiles (Some files) w) = selectedFiles w ++ survivors ∧
    file <$> survivors
    = filter (λ f, (file_id f ∉ ids (selectedFiles w)) ∧ is_image f) files ∧
    Forall (λ c, id c = file_id (file c)) survivors.
Proof.
  eexists. split; [apply handleFiles_selectedFiles|].
  destruct (toImageFiles_images (filter is_image files) w) as [Hfiles Hids].
  split.
  - unfold candidates. rewrite filter_by_id by done.
    rewrite Hfiles. apply list_filter_filter.
  - by apply Forall_filter_id.
Qed.

Lemma filter_none {A} (P : A → Prop) `{∀ x, Decision (P x)} (l : list A) :
  Forall (λ x, ¬ P x) l → filter P l = [].
Proof.
  induction 1 as [|x l Hx _ IH]; [done|]. by rewrite filter_cons_False.
Qed.

Lemma candidate_known files w c :
  c ∈ candidates files w →
  ∃ f, f ∈ files ∧ is_image f ∧ id c = file_id f.
Proof.
  intros Hc.
  assert (id c ∈ ids (candidates files w)) as Hid
    by (apply list_elem_of_fmap; eauto).
  rewrite candidates_ids in Hid.
  apply list_elem_of_fmap in Hid as (f & -> & Hf).
  apply list_elem_of_filter in Hf as [? ?]. eauto.
Qed.

(** A batch all of whose image files are known leaves the store as it
    is. *)
Lemma handleFiles_known files w :
  (∀ f, f ∈ files → is_image f → file_id f ∈ ids (selectedFiles w)) →
  selectedFiles (handleFiles (Some files) w) = selectedFiles w.
Proof.
  intros Hknown. rewrite handleFiles_selectedFiles.
  rewrite filter_none; [apply app_nil_r|].
  apply Forall_forall. intros c Hc Hnew.
  apply candidate_known in Hc as (f & Hf & Himg & Hid).
  rewrite Hid in Hnew. by apply Hnew, Hknown.
Qed.

(** A batch whose image files have distinct ids keeps the ids of the
    store distinct. *)
Lemma handleFiles_NoDup files w :
  NoDup (ids (selectedFiles w)) →
  NoDup (file_id <$> filter is_image files) →
  NoDup (ids (selectedFiles (handleFiles (Some files) w))).
Proof.
  intros Hstore Hbatch. rewrite handleFiles_selectedFiles.
  unfold ids at 1. rewrite fmap_app. apply NoDup_app. split; [done|]. split.
  - intros i Hi Hin. apply list_elem_of_fmap in Hin as (c & -> & Hc).
    by apply list_elem_of_filter in Hc as [? _].
  - rewrite <- (candidates_ids files w) in Hbatch. unfold ids in Hbatch.
    induction (candidates files w) as [|c l IH]; [constructor|].
    rewrite fmap_cons in Hbatch. apply NoDup_cons in Hbatch as [Hc Hl].
    rewrite filter_cons. destruct (decide _); [|by apply IH].
    rewrite fmap_cons. apply NoDup_cons. split; [|by apply IH].
    intros Hin. apply Hc. apply list_elem_of_fmap in Hin as (c' & -> & Hc').
    apply list_elem_of_filter in Hc' as [_ Hc']. apply list_elem_of_fmap. eauto.
Qed.

(** C8: adding to the staging store keeps what is there and appends, in
    the order of the input, the image files whose id the store does not
    hold; adding the same files again leaves the store as it is; and a
    file added twice to a store that did not hold its id is there once. *)
Theorem handleFiles_first_seen_wins (files : list File) (w : World) :
  let w1 := handleFiles (Some files) w in
  let w2 := handleFiles (Some files) w1 in
  (∃ survivors,
     selectedFiles w1 = selectedFiles w ++ survivors ∧
     file <$> survivors
     = filter (λ f, (file_id f ∉ ids (selectedFiles w)) ∧ is_image f) files ∧
     Forall (λ c, id c = file_id (file c)) survivors) ∧
  selectedFiles w2 = selectedFiles w1 ∧
  (∀ f, files = [f] → is_image f → file_id f ∉ ids (selectedFiles w) →
     length (filter (λ c, id c = file_id f) (selectedFiles w2)) = 1).
Proof.
  cbv zeta.
  destruct (handleFiles_survivors files w) as (survivors & Hw1 & Hfiles & Hids).
  assert (selectedFiles (handleFiles (Some files) (handleFiles (Some files) w))
          = selectedFiles (handleFiles (Some files) w)) as Hw2.
  { apply handleFiles_known. intros f Hf Himg. rewrite Hw1.
    unfold ids. rewrite fmap_app. apply elem_of_app.
    destruct (decide (file_id f ∈ ids (selectedFiles w))) as [|Hnew]; [by left|].
    right.
    assert (f ∈ file <$> survivors) as Hin
      by (rewrite Hfiles; apply list_elem_of_filter; done).
    apply list_elem_of_fmap in Hin as (c & -> & Hc).
    apply list_elem_of_fmap. exists c. split; [|done].
    symmetry. by apply (proj1 (Forall_forall _ _) Hids). }
  split; [by exists survivors|]. split; [done|].
  intros f -> Himg Hnew. rewrite Hw2, Hw1.
  rewrite filter_app, length_app.
  rewrite (filter_none _ (selectedFiles w)).
  2:{ apply Forall_forall. intros c Hc Hid. apply Hnew.
      rewrite <- Hid. apply list_elem_of_fmap. eauto. }
  rewrite filter_cons_True, filter_nil in Hfiles by done.
  destruct survivors as [|c [|c' rest]]; try done.
  apply Forall_inv in Hids. injection Hfiles as Hc.
  rewrite filter_cons_True by (by rewrite Hids, Hc). done.
Qed.

Lemma handleFiles_first_seen_wins_witness :
  let w := handleFiles (Some [b_png]) (mount None) in
  length
    (filter (λ c, id c = file_id a_png)
       (selectedFiles (handleFiles (Some [a_png]) (handleFiles (Some [a_png]) w))))
  = 1.
Proof.
  intros w.
  apply (handleFiles_first_seen_wins [a_png] w); [reflexivity | vm_compute; exact I |].
  vm_compute. intros H. repeat (apply elem_of_cons in H as [H|H]; [discriminate|]).
  by apply elem_of_nil in H.
Defined.

(** C10: [handleFiles] looks at no status: whatever the status, it
    appends to the staged files the image files of its input whose id
    is not staged yet, in the order of the input and each under its id,
    and leaves the status, the error message and the results as they
    are. *)
Theorem handleFiles_in_every_status (files : option (list File)) (w : World) :
  (∃ added,
     selectedFiles (handleFiles files w) = selectedFiles w ++ added ∧
     file <$> added
     = filter (λ f, (file_id f ∉ ids (selectedFiles w)) ∧ is_image f)
         (default [] files) ∧
     Forall (λ c, id c = file_id (file c)) added) ∧
  status (handleFiles files w) = status w ∧
  error (handleFiles files w) = error w ∧
  processedFiles (handleFiles files w) = processedFiles w.
Proof.
  destruct (handleFiles_frame files w) as [(Hp & Hs & He & _) _].
  split; [|done].
  destruct files as [files|].
  - apply handleFiles_survivors.
  - exists []. simpl. rewrite app_nil_r. by repeat split.
Qed.

(** While PROCESSING, and in SUCCESS, a new image handed to
    [handleFiles] is staged all the same. *)
Lemma handleFiles_while_processing_example :
  let settled := handle V8 (FetchSettles 0 (Resolved ok_a_png) epoch) processing_a_png in
  status processing_a_png = PROCESSING ∧
  file <$> selectedFiles (handleFiles (Some [b_png]) processing_a_png) = [a_png; b_png] ∧
  status (handleFiles (Some [b_png]) processing_a_png) = PROCESSING ∧
  status settled = SUCCESS ∧
  file <$> selectedFiles (handleFiles (Some [b_png]) settled) = [a_png; b_png] ∧
  status (handleFiles (Some [b_png]) settled) = SUCCESS.
Proof. by vm_compute. Qed.

(** C1: one drop of the same file twice, on the freshly mounted
    component, is a reachable state in which two staged entries share
    their id: [handleFiles] compares the candidates with the store, not
    with each other. *)
Theorem handleFiles_same_id_twice_in_one_call :
  let w := handle V8 (Drop (Some [a_png; a_png])) (mount None) in
  reachable V8 None w ∧
  selectedFiles w =
    [ {| id := "a.png-1700000000000"; file := a_png; previewUrl := "blob:0" |};
      {| id := "a.png-1700000000000"; file := a_png; previewUrl := "blob:1" |} ] ∧
  ¬ NoDup (ids (selectedFiles w)).
Proof.
  intros w. split; [|split].
  - apply reachable_step; [apply reachable_mount|].
    simpl. apply list_elem_of_here.
  - by vm_compute.
  - replace (ids (selectedFiles w))
      with ["a.png-1700000000000"; "a.png-1700000000000"] by (by vm_compute).
    intros H. apply NoDup_cons in H as [H _]. apply H, list_elem_of_here.
Qed.

(** ** Reset, and the object URLs *)

Lemma handleProcessImages_objectURLs w :
  objectURLs (handleProcessImages w) = objectURLs w.
Proof. unfold handleProcessImages. by destruct (hasFilesSelected w). Qed.

Lemma handleProcessImages_resume_objectURLs E now captured o w :
  objectURLs (handleProcessImages_resume E now captured o w) = objectURLs w.
Proof.
  unfold handleProcessImages_resume. by destruct (try_block E now captured o).
Qed.

Lemma handle_live E ev w :
  dom (objectURLs w) ⊆ dom (objectURLs (handle E ev w)).
Proof.
  destruct ev; simpl; try done.
  - apply (handleFiles_frame files (setIsDragging false w)).
  - apply handleFiles_frame.
  - by rewrite handleProcessImages_objectURLs.
  - destruct (suspended w !! k); [|done].
    by rewrite handleProcessImages_resume_objectURLs.
Qed.

(** C4, as the code has it: the reset and "Clear Selection" empty the
    staging store and leave every object URL live; nothing that can
    happen to the component releases one. *)
Theorem handleReset_empties_and_releases_nothing (E : Engine) (w : World) :
  selectedFiles (handleReset w) = [] ∧
  processedFiles (handleReset w) = [] ∧
  status (handleReset w) = IDLE ∧
  error (handleReset w) = None ∧
  objectURLs (handleReset w) = objectURLs w ∧
  selectedFiles (clearSelection w) = [] ∧
  objectURLs (clearSelection w) = objectURLs w ∧
  ∀ ev, dom (objectURLs w) ⊆ dom (objectURLs (handle E ev w)).
Proof. repeat (split; [reflexivity|]). intros ev. apply handle_live. Qed.

(** C4 as stated fails: stage one image and reset; the store is empty
    and the preview of the entry that was staged is still live. *)
Lemma handleReset_leaves_preview_live :
  let w := handle V8 (Drop (Some [a_png])) (mount None) in
  let staged := {| id := "a.png-1700000000000"; file := a_png; previewUrl := "blob:0" |} in
  selectedFiles w = [staged] ∧
  selectedFiles (handleReset w) = [] ∧
  objectURLs (handleReset w) !! previewUrl staged = Some a_png.
Proof. by vm_compute. Qed.

(** ** Reconciliation *)

Lemma Array_find_total {A} (p : A → Completion bool) (q : A → bool) (l : list A) :
  (∀ x, p x = Normal (q x)) → Array_find p l = Normal (List.find q l).
Proof.
  intros Hp. induction l as [|x l IH]; [done|].
  simpl. rewrite Hp. simpl. by destruct (q x).
Qed.

(** On a JSON value that is a [ProcessedImageResponse] the callback
    does not throw, and is [processed_file]. *)
Lemma to_processed_file_typed E now staged item r index :
  is_response item r →
  to_processed_file E now staged item index
  = Normal (processed_file now staged index r).
Proof.
  destruct item as [| | | | |members]; try done.
  intros (Hfn & Hb64 & Hct).
  unfold to_processed_file, processed_file.
  rewrite (Array_find_total _
             (λ f : ImageFile, bool_decide (name (file f) = filename r))).
  2:{ intros f. simpl. by rewrite Hfn. }
  simpl. rewrite Hfn, Hb64, Hct.
  by destruct (List.find _ staged).
Qed.

Lemma Array_map_typed E now staged items results k :
  Forall2 is_response items results →
  Array_map (to_processed_file E now staged) k items
  = Normal (imap (λ i, processed_file now staged (k + i)) results).
Proof.
  intros H. revert k. induction H as [|item r items results Hr _ IH]; intros k; [done|].
  simpl. rewrite (to_processed_file_typed _ _ _ _ r) by done. simpl.
  rewrite IH. simpl. rewrite Nat.add_0_r. do 2 f_equal.
  apply imap_ext. intros i x _. simpl. f_equal. lia.
Qed.

Lemma to_JSON_is_response r : is_response (to_JSON r) r.
Proof. by vm_compute. Qed.

Lemma find_name_elem (staged : list ImageFile) (fn : string) (o : ImageFile) :
  List.find (λ f : ImageFile, bool_decide (name (file f) = fn)) staged = Some o →
  o ∈ staged ∧ name (file o) = fn.
Proof.
  intros H. apply find_some in H as [Hin Hname].
  split; [by apply list_elem_of_In | by apply bool_decide_eq_true in Hname].
Qed.

Lemma find_name_none (staged : list ImageFile) (fn : string) :
  (∀ f, f ∈ staged → name (file f) ≠ fn) →
  List.find (λ f : ImageFile, bool_decide (name (file f) = fn)) staged = None.
Proof.
  intros Hno. induction staged as [|f l IH]; [done|].
  simpl. rewrite bool_decide_eq_false_2 by (apply Hno; left).
  apply IH. intros g Hg. apply Hno. by right.
Qed.

(** The first staged entry of a name is the one [find] returns. *)
Lemma find_name_first (before after : list ImageFile) (s : ImageFile) :
  (∀ f, f ∈ before → name (file f) ≠ name (file s)) →
  List.find (λ f : ImageFile, bool_decide (name (file f) = name (file s)))
    (before ++ s :: after) = Some s.
Proof.
  intros Hno. induction before as [|f l IH]; simpl.
  - by rewrite bool_decide_eq_true_2.
  - rewrite bool_decide_eq_false_2 by (apply Hno; left).
    apply IH. intros g Hg. apply Hno. by right.
Qed.

Lemma find_name_unique (staged : list ImageFile) (s : ImageFile) :
  NoDup (name ∘ file <$> staged) → s ∈ staged →
  List.find (λ f : ImageFile, bool_decide (name (file f) = name (file s))) staged
  = Some s.
Proof.
  intros Hnd Hin. apply list_elem_of_split in Hin as (before & after & ->).
  apply find_name_first. intros f Hf Heq.
  rewrite fmap_app, fmap_cons in Hnd. apply NoDup_app in Hnd as (_ & Hdisj & _).
  apply (Hdisj (name (file f))).
  - apply list_elem_of_fmap. by exists f.
  - simpl. rewrite Heq. left.
Qed.

Lemma find_name_Permutation (staged staged' : list ImageFile) (fn : string) :
  NoDup (name ∘ file <$> staged) → staged ≡ₚ staged' →
  List.find (λ f : ImageFile, bool_decide (name (file f) = fn)) staged
  = List.find (λ f : ImageFile, bool_decide (name (file f) = fn)) staged'.
Proof.
  intros Hnd Hperm.
  destruct (List.find _ staged) as [o|] eqn:Hfind.
  - apply find_name_elem in Hfind as [Hin <-].
    symmetry. apply find_name_unique.
    + by rewrite <- Hperm.
    + by rewrite <- Hperm.
  - symmetry. apply find_name_none. intros f Hf Hname.
    rewrite <- Hperm in Hf. apply list_elem_of_In in Hf.
    apply (find_none _ _ Hfind) in Hf. simpl in Hf.
    by apply bool_decide_eq_false in Hf.
Qed.

Lemma reconcile_lookup now staged results i :
  reconcile now staged results !! i
  = processed_file now staged i <$> results !! i.
Proof. apply list_lookup_imap. Qed.

Lemma processedData_map_typed E now staged items results :
  Forall2 is_response items results →
  processedData_map E now staged (JArray items)
  = Normal (reconcile now staged results).
Proof. intros H. simpl. by rewrite (Array_map_typed _ _ _ _ results). Qed.

(** C6, as the code has it: the reconciliation gives one entry per
    result, in the typed reading and on the JSON the service sends
    (where it does not throw); a result whose filename no staged file
    bears gets as id the filename, a hyphen and the index, an empty file
    of that name, and its data URI. *)
Theorem reconcile_one_entry_per_result (E : Engine) (now : nat → Z)
    (staged : list ImageFile) (results : list ProcessedImageResponse) :
  length (reconcile now staged results) = length results ∧
  processedData_map E now staged (JArray (to_JSON <$> results))
  = Normal (reconcile now staged results) ∧
  ∀ i r,
    results !! i = Some r →
    (∀ f, f ∈ staged → name (file f) ≠ filename r) →
    reconcile now staged results !! i
    = Some {| id := filename r +:+ "-" +:+ pretty i;
              file := {| name := filename r; type := "";
                         lastModified := now i; content := [] |};
              previewUrl := data_uri r |}.
Proof.
  split; [apply length_imap|]. split.
  - apply processedData_map_typed.
    induction results as [|r l IH]; constructor; [apply to_JSON_is_response | done].
  - intros i r Hi Hno. rewrite reconcile_lookup, Hi. simpl.
    unfold processed_file. by rewrite find_name_none.
Qed.

Lemma reconcile_one_entry_per_result_witness :
  reconcile epoch [staged_a] [result_for "a.png"; result_for "zzz.png"] !! 1
  = Some {| id := "zzz.png-1";
            file := {| name := "zzz.png"; type := ""; lastModified := 0;
                       content := [] |};
            previewUrl := "data:image/png;base64,AA==" |}.
Proof.
  destruct (reconcile_one_entry_per_result V8 epoch [staged_a]
              [result_for "a.png"; result_for "zzz.png"]) as (_ & _ & H).
  refine (H 1 (result_for "zzz.png") eq_refl _).
  intros f Hf. apply list_elem_of_singleton in Hf as ->. discriminate.
Defined.

(** C6 as stated fails: the id of a result that matches no staged file
    is not the filename followed by the index; a hyphen stands between
    the two. *)
Lemma fallback_id_is_not_filename_then_index :
  let r := result_for "zzz.png" in
  let results := [result_for "a.png"; r] in
  results !! 1 = Some r ∧
  (∀ f, f ∈ [staged_a] → name (file f) ≠ filename r) ∧
  id <$> reconcile epoch [staged_a] results !! 1 = Some "zzz.png-1" ∧
  id <$> reconcile epoch [staged_a] results !! 1 ≠ Some (filename r +:+ pretty 1).
Proof.
  split; [reflexivity|]. split; [|split].
  - intros f Hf. apply list_elem_of_singleton in Hf as ->. discriminate.
  - reflexivity.
  - by vm_compute.
Qed.

(** C7: with staged files of distinct names, the order of the staged
    list does not matter to the reconciliation, and the entry at [i]
    is the one of the result at [i]: it bears that result's filename
    and data URI. *)
Theorem reconcile_follows_results (now : nat → Z)
    (staged staged' : list ImageFile) (results : list ProcessedImageResponse) :
  NoDup (name ∘ file <$> staged) →
  staged ≡ₚ staged' →
  reconcile now staged results = reconcile now staged' results ∧
  length (reconcile now staged results) = length results ∧
  ∀ i r,
    results !! i = Some r →
    ∃ img,
      reconcile now staged results !! i = Some img ∧
      name (file img) = filename r ∧
      previewUrl img = data_uri r ∧
      (∀ s, s ∈ staged → name (file s) = filename r →
            id img = id s ∧ file img = file s).
Proof.
  intros Hnd Hperm. split; [|split; [apply length_imap|]].
  - apply imap_ext. intros i r _. unfold processed_file.
    by rewrite (find_name_Permutation staged staged').
  - intros i r Hi. eexists. split; [by rewrite reconcile_lookup, Hi|].
    unfold processed_file.
    destruct (List.find _ staged) as [o|] eqn:Hfind; simpl.
    + pose proof (find_name_elem _ _ _ Hfind) as [Hin Hname].
      do 2 (split; [done|]).
      intros s0 Hs Hs'. rewrite <- Hs' in Hfind.
      rewrite (find_name_unique staged s0) in Hfind by done.
      by injection Hfind as ->.
    + do 2 (split; [done|]).
      intros s0 Hs Hs'. apply list_elem_of_In in Hs.
      apply (find_none _ _ Hfind) in Hs. simpl in Hs.
      by apply bool_decide_eq_false in Hs.
Qed.

Lemma reconcile_follows_results_witness :
  reconcile epoch [staged_a; staged_b] [result_for "b.png"; result_for "a.png"]
  = reconcile epoch [staged_b; staged_a] [result_for "b.png"; result_for "a.png"] ∧
  reconcile epoch [staged_a; staged_b] [result_for "b.png"; result_for "a.png"]
  = [ {| id := id staged_b; file := b_png; previewUrl := "data:image/png;base64,AA==" |};
      {| id := id staged_a; file := a_png; previewUrl := "data:image/png;base64,AA==" |} ].
Proof.
  split; [|reflexivity].
  apply (reconcile_follows_results epoch [staged_a; staged_b] [staged_b; staged_a]).
  - vm_compute. apply NoDup_cons. split.
    + intros H. apply list_elem_of_singleton in H. discriminate.
    + apply NoDup_singleton.
  - apply Permutation_swap.
Defined.

(** ** Submission: handleProcessImages *)

Lemma try_block_ok E now captured r :
  response_ok r = true →
  try_block E now captured (Resolved r)
  = processedData ← response_json r; processedData_map E now captured processedData.
Proof. intros Hok. unfold try_block. simpl. by rewrite Hok. Qed.


Lemma resume_Normal E now captured o w files :
  try_block E now captured o = Normal files →
  handleProcessImages_resume E now captured o w
  = setStatus SUCCESS (setProcessedFiles files w).
Proof. intros H. unfold handleProcessImages_resume. by rewrite H. Qed.

Lemma resume_Throw E now captured o w message :
  try_block E now captured o = Throw (ErrorObject message) →
  handleProcessImages_resume E now captured o w
  = console_error (ErrorObject message)
      (setStatus ERROR (setError (Some message) w)).
Proof. intros H. unfold handleProcessImages_resume. by rewrite H. Qed.

(** C5: when [fetch] resolves with a 2xx status and an array of
    well-formed results, the component enters SUCCESS with one entry
    per result, and the entry of a result whose filename a staged file
    bears carries the id and the file of the first such staged entry
    and the data URI of the result. *)
Theorem ok_response_enters_success (E : Engine) (now : nat → Z)
    (captured : list ImageFile) (r : Response) (items : list JSON)
    (results : list ProcessedImageResponse) (w : World) :
  response_ok r = true →
  response_json r = Normal (JArray items) →
  Forall2 is_response items results →
  let w' := handleProcessImages_resume E now captured (Resolved r) w in
  status w' = SUCCESS ∧
  selectedFiles w' = selectedFiles w ∧
  error w' = error w ∧
  length (processedFiles w') = length results ∧
  ∀ i res before s after,
    results !! i = Some res →
    captured = before ++ s :: after →
    name (file s) = filename res →
    (∀ f, f ∈ before → name (file f) ≠ filename res) →
    processedFiles w' !! i
    = Some {| id := id s; file := file s; previewUrl := data_uri res |}.
Proof.
  intros Hok Hjson Htyped. cbv zeta.
  rewrite (resume_Normal _ _ _ _ _ (reconcile now captured results)).
  2:{ rewrite try_block_ok, Hjson by done. by apply processedData_map_typed. }
  simpl. do 3 (split; [done|]). split; [apply length_imap|].
  intros i res before s after Hi -> Hname Hfirst.
  rewrite reconcile_lookup, Hi. simpl. unfold processed_file.
  rewrite <- Hname in Hfirst |- *. by rewrite find_name_first.
Qed.

Lemma ok_response_enters_success_witness :
  let w :=
    handle V8 (FetchSettles 0 (Resolved ok_a_png) epoch)
      (handle V8 ClickProcess (handle V8 (Drop (Some [a_png])) (mount None))) in
  status w = SUCCESS ∧
  processedFiles w
  = [ {| id := "a.png-1700000000000"; file := a_png;
         previewUrl := "data:image/png;base64,AA==" |} ].
Proof.
  intros w.
  pose (w2 := handle V8 ClickProcess (handle V8 (Drop (Some [a_png])) (mount None))).
  destruct (ok_response_enters_success V8 epoch (selectedFiles w2) ok_a_png
              [JObject [("filename", JString "a.png");
                        ("processed_image_b64", JString "AA==");
                        ("content_type", JString "image/png")]]
              [result_for "a.png"] (resumed 0 w2))
    as (Hstatus & _ & _ & Hlen & Hentry).
  - reflexivity.
  - reflexivity.
  - repeat constructor.
  - split; [exact Hstatus|].
    change (processedFiles w)
      with (processedFiles
              (handleProcessImages_resume V8 epoch (selectedFiles w2)
                 (Resolved ok_a_png) (resumed 0 w2))).
    specialize (Hentry 0 (result_for "a.png") [] staged_a [] eq_refl eq_refl eq_refl).
    destruct (processedFiles _) as [|x [|y l]]; try discriminate.
    injection Hentry as ->; [reflexivity|].
    intros f Hf. by apply elem_of_nil in Hf.
Defined.




Lemma handleProcessImages_started w :
  hasFilesSelected w = true →
  handleProcessImages w
  = await_fetch (selectedFiles w)
      {| url := API_URL w +:+ "/api/process"; method := "POST";
         body := (λ imageFile : ImageFile,
                    {| entry_field := "files"; entry_blob := file imageFile;
                       entry_filename := name (file imageFile) |})
                 <$> selectedFiles w |}
      (setError None (setStatus PROCESSING w)).
Proof. intros H. unfold handleProcessImages. by rewrite H. Qed.

(** Whenever [fetch] settles, and whatever the component's state is by
    then, resuming the handler leaves the staged files; a failure
    leaves the results too. *)
Lemma handleProcessImages_resume_frame E now captured o w :
  let w' := handleProcessImages_resume E now captured o w in
  selectedFiles w' = selectedFiles w ∧
  (status w' = ERROR → processedFiles w' = processedFiles w).
Proof.
  cbv zeta. unfold handleProcessImages_resume.
  destruct (try_block E now captured o); simpl; [|done].
  split; [done | discriminate].
Qed.

(** C9: a submission, from the click to the point where [fetch] has
    settled, leaves the staged files as they are; when it ends in ERROR
    it also leaves the results, and everything of the component's state
    but the status and the error message. *)
Theorem submission_frame (E : Engine) (now : nat → Z) (o : FetchOutcome) (w : World) :
  hasFilesSelected w = true →
  let started := handleProcessImages w in
  let settled := handleProcessImages_resume E now (selectedFiles w) o started in
  selectedFiles started = selectedFiles w ∧
  selectedFiles settled = selectedFiles w ∧
  (status settled = SUCCESS ∨ status settled = ERROR) ∧
  (status settled = ERROR →
     processedFiles settled = processedFiles w ∧
     isDragging settled = isDragging w ∧
     modalImage settled = modalImage w ∧
     objectURLs settled = objectURLs w ∧
     is_Some (error settled)).
Proof.
  intros Hsel. cbv zeta. rewrite handleProcessImages_started by done.
  unfold handleProcessImages_resume.
  destruct (try_block E now (selectedFiles w) o) as [files|err]; simpl.
  - split; [done|]. split; [done|]. split; [by left|]. discriminate.
  - split; [done|]. split; [done|]. split; [by right|]. intros _. by repeat split.
Qed.

Lemma submission_frame_witness :
  let w := handle V8 (Drop (Some [a_png])) (mount None) in
  let settled :=
    handleProcessImages_resume V8 epoch (selectedFiles w) (Resolved model_unavailable)
      (handleProcessImages w) in
  selectedFiles settled = selectedFiles w ∧ processedFiles settled = processedFiles w.
Proof.
  intros w settled.
  destruct (submission_frame V8 epoch (Resolved model_unavailable) w eq_refl)
    as (_ & Hstaged & _ & Hfail).
  split; [exact Hstaged|]. by apply Hfail.
Defined.

(** ** The view gates the handlers *)

Lemma UploadLabel_rendered w :
  UploadLabel ∈ renderContent w → status w = IDLE ∨ status w = ERROR.
Proof. unfold renderContent. rendered. Qed.

Lemma ProcessButton_rendered w d :
  ProcessButton d ∈ renderContent w →
  (status w = IDLE ∨ status w = ERROR) ∧ hasFilesSelected w = true ∧ d = false.
Proof.
  unfold renderContent, isProcessing. rendered.
  all: match goal with H : ProcessButton _ = _ |- _ => injection H as -> end.
  all: auto.
Qed.

Lemma ClearSelectionButton_rendered w :
  ClearSelectionButton ∈ renderContent w → status w = IDLE ∨ status w = ERROR.
Proof. unfold renderContent. rendered. Qed.

Lemma ProcessMoreButton_rendered w :
  ProcessMoreButton ∈ renderContent w → status w = SUCCESS.
Proof. unfold renderContent. rendered. Qed.

Lemma in_flight_not_processing w :
  status w = IDLE ∨ status w = ERROR ∨ status w = SUCCESS →
  in_flight w → suspended w = [].
Proof. unfold in_flight. by intros [->|[->| ->]]. Qed.

Lemma in_flight_same w w' :
  status w' = status w → suspended w' = suspended w → error w' = error w →
  in_flight w → in_flight w'.
Proof. unfold in_flight. by intros -> -> ->. Qed.

Lemma reachable_in_flight E env w : reachable E env w → in_flight w.
Proof.
  induction 1 as [|w ev Hw IH Hen]; [done|].
  destruct ev; simpl in *.
  - by eapply in_flight_same.
  - by eapply in_flight_same.
  - destruct (handleFiles_frame files (setIsDragging false w))
      as [(_ & Hs & He & _ & _ & Hsus & _) _].
    by eapply in_flight_same.
  - destruct (handleFiles_frame files w) as [(_ & Hs & He & _ & _ & Hsus & _) _].
    by eapply in_flight_same.
  - by eapply in_flight_same.
  - apply ProcessButton_rendered in Hen as (Hs & Hsel & _).
    rewrite handleProcessImages_started by done.
    unfold in_flight. simpl.
    rewrite (in_flight_not_processing w) by tauto. done.
  - apply ProcessMoreButton_rendered in Hen.
    unfold in_flight. simpl. apply in_flight_not_processing; tauto.
  - by eapply in_flight_same.
  - by eapply in_flight_same.
  - unfold in_flight in IH.
    destruct (status w) eqn:Hs; try (rewrite IH in Hen; simpl in Hen; lia).
    destruct IH as [Hone Herr].
    destruct (suspended w) as [|captured [|]] eqn:Hsus; try done.
    assert (k = 0) as -> by (simpl in Hen; lia). simpl.
    unfold handleProcessImages_resume, in_flight.
    destruct (try_block E now captured o); simpl; by rewrite Hsus.
Qed.

(** C2, as the code has it: [handleProcessImages] does not look at the
    status.  Called while PROCESSING with files staged, it issues a
    request and suspends once more, clears the error message, and leaves
    the staged files, the results and the status; it returns at once
    only when nothing is staged.  What keeps a second submission from
    starting is the view: while PROCESSING the button is not rendered,
    so that in every state the component can reach exactly one handler
    waits, with the error message cleared. *)
Theorem handleProcessImages_while_processing (E : Engine) (env : option string)
    (w : World) :
  status w = PROCESSING →
  (hasFilesSelected w = true →
     let w' := handleProcessImages w in
     selectedFiles w' = selectedFiles w ∧
     processedFiles w' = processedFiles w ∧
     status w' = PROCESSING ∧
     error w' = None ∧
     length (fetches w') = S (length (fetches w)) ∧
     suspended w' = suspended w ++ [selectedFiles w]) ∧
  (hasFilesSelected w = false → handleProcessImages w = w) ∧
  ¬ enabled ClickProcess w ∧
  (reachable E env w → length (suspended w) = 1 ∧ error w = None).
Proof.
  intros Hs. split; [|split; [|split]].
  - intros Hsel. cbv zeta. rewrite handleProcessImages_started by done.
    simpl. repeat split; try done. rewrite length_app. simpl. lia.
  - intros Hsel. unfold handleProcessImages. by rewrite Hsel.
  - simpl. intros Hen. apply ProcessButton_rendered in Hen as ([H|H] & _);
      congruence.
  - intros Hreach. apply reachable_in_flight in Hreach.
    unfold in_flight in Hreach. by rewrite Hs in Hreach.
Qed.

Lemma handleProcessImages_while_processing_witness :
  status processing_a_png = PROCESSING ∧
  ¬ enabled ClickProcess processing_a_png ∧
  length (fetches (handleProcessImages processing_a_png)) = 2.
Proof.
  destruct (handleProcessImages_while_processing V8 None processing_a_png eq_refl)
    as (Hcall & _ & Hview & _).
  split; [reflexivity|]. split; [exact Hview|].
  destruct (Hcall eq_refl) as (_ & _ & _ & _ & Hfetches & _).
  exact Hfetches.
Defined.

(** C2 as stated fails: called on a component that is PROCESSING one
    staged image, the handler sends a second request and suspends a
    second time. *)
Lemma handleProcessImages_not_guarded_by_status :
  status processing_a_png = PROCESSING ∧
  length (fetches processing_a_png) = 1 ∧
  length (fetches (handleProcessImages processing_a_png)) = 2 ∧
  length (suspended (handleProcessImages processing_a_png)) = 2 ∧
  handleProcessImages processing_a_png ≠ processing_a_png.
Proof.
  repeat split; by vm_compute.
Qed.

(** * Further properties *)

(** ** Staging and the object URLs *)

Lemma blob_url_inj k k' : blob_url k = blob_url k' → k = k'.
Proof.
  unfold blob_url. intros H. injection H as H.
  change (pretty k = pretty k') in H. by apply (inj pretty) in H.
Qed.

Lemma handleFiles_unfold files w :
  handleFiles (Some files) w
  = setSelectedFiles
      (λ prev,
         prev ++ filter (λ f : ImageFile, id f ∉ (list_to_set (id <$> prev) : gset string))
                   (toImageFiles (filter is_image files) w).1)
      (toImageFiles (filter is_image files) w).2.
Proof.
  unfold handleFiles, is_image. by destruct (toImageFiles _ w).
Qed.

Lemma createObjectURL_fresh f w :
  urls_fresh w → objectURLs w !! (createObjectURL f w).1 = None.
Proof.
  intros Hfresh. destruct (objectURLs w !! _) as [g|] eqn:Hg; [|done].
  destruct (Hfresh _ (mk_is_Some _ _ Hg)) as (k & Hk & Heq).
  apply blob_url_inj in Heq. lia.
Qed.

Lemma createObjectURL_urls_fresh f w :
  urls_fresh w → urls_fresh (createObjectURL f w).2.
Proof.
  intros Hfresh u Hu. simpl in *.
  destruct (decide (u = "blob:" +:+ pretty (objectURLCounter w))) as [->|Hne].
  - exists (objectURLCounter w). split; [lia | done].
  - rewrite lookup_insert_ne in Hu by done.
    destruct (Hfresh u Hu) as (k & Hk & ->). exists k. split; [lia | done].
Qed.

(** What a batch of files does to the blob URL store: one fresh URL
    per file, each resolving to its file, none of the old ones
    touched. *)
Lemma toImageFiles_urls files w :
  urls_fresh w →
  urls_fresh (toImageFiles files w).2 ∧
  objectURLCounter (toImageFiles files w).2 = objectURLCounter w + length files ∧
  size (objectURLs (toImageFiles files w).2) = size (objectURLs w) + length files ∧
  (∀ v g, objectURLs w !! v = Some g →
          objectURLs (toImageFiles files w).2 !! v = Some g) ∧
  Forall (λ c, objectURLs (toImageFiles files w).2 !! previewUrl c = Some (file c) ∧
               objectURLs w !! previewUrl c = None)
    (toImageFiles files w).1 ∧
  NoDup (previewUrl <$> (toImageFiles files w).1).
Proof.
  revert w. induction files as [|f rest IH]; intros w Hfresh.
  - simpl. repeat split; try done; try lia; constructor.
  - rewrite toImageFiles_cons.
    pose proof (createObjectURL_fresh f w Hfresh) as Hnew.
    destruct (IH _ (createObjectURL_urls_fresh f w Hfresh))
      as (Hfresh2 & Hcount & Hsize & Hkeep & Himgs & Hnd).
    set (w1 := (createObjectURL f w).2) in *.
    set (u := (createObjectURL f w).1) in *.
    assert (objectURLs w1 !! u = Some f) as Hu by apply lookup_insert_eq.
    assert (∀ v, objectURLs w1 !! v = None → objectURLs w !! v = None) as Hnone.
    { intros v Hv. unfold w1 in Hv. simpl in Hv.
      by apply lookup_insert_None in Hv as [? _]. }
    cbn [fst snd].
    split; [done|]. split; [simpl in *; lia|]. split.
    { rewrite Hsize. unfold w1. simpl.
      rewrite map_size_insert_None by exact Hnew. simpl. lia. }
    split.
    { intros v g Hv. apply Hkeep. unfold w1. simpl.
      rewrite lookup_insert_ne; [done|]. intros <-.
      unfold u in Hnew. simpl in Hnew. congruence. }
    split.
    { simpl. constructor.
      - simpl. split; [by apply Hkeep | exact Hnew].
      - eapply Forall_impl; [exact Himgs|]. intros c [Hc Hc']. split; auto. }
    simpl. apply NoDup_cons. split; [|done].
    intros Hin. apply list_elem_of_fmap in Hin as (c & Hc & Hin).
    apply (proj1 (Forall_forall _ _) Himgs) in Hin as [_ Hin].
    fold u in Hc. rewrite <- Hc in Hin. congruence.
Qed.

Lemma handleProcessImages_same_staging w : same_staging w (handleProcessImages w).
Proof. unfold handleProcessImages. by destruct (hasFilesSelected w). Qed.

Lemma handleProcessImages_resume_same_staging E now captured o w :
  same_staging w (handleProcessImages_resume E now captured o w).
Proof.
  unfold handleProcessImages_resume. by destruct (try_block E now captured o).
Qed.

Lemma same_staging_ok w w' :
  same_staging w w' → urls_fresh w ∧ staged_ok w → urls_fresh w' ∧ staged_ok w'.
Proof.
  unfold urls_fresh, staged_ok. intros (Hs & Hu & Hc). by rewrite Hs, Hu, Hc.
Qed.

Lemma emptied_ok w w' :
  selectedFiles w' = [] → objectURLs w' = objectURLs w →
  objectURLCounter w' = objectURLCounter w →
  urls_fresh w → urls_fresh w' ∧ staged_ok w'.
Proof.
  unfold urls_fresh, staged_ok. intros -> -> -> H.
  split; [done|]. split; constructor.
Qed.

Lemma handleFiles_ok files w :
  urls_fresh w ∧ staged_ok w →
  urls_fresh (handleFiles files w) ∧ staged_ok (handleFiles files w).
Proof.
  destruct files as [files|]; [|done].
  intros [Hfresh [Hstaged Hnd]].
  rewrite handleFiles_unfold.
  destruct (toImageFiles_urls (filter is_image files) w Hfresh)
    as (Hfresh2 & _ & _ & Hkeep & Himgs & Hnd2).
  destruct (toImageFiles_images (filter is_image files) w) as [Hfiles Hids].
  set (imgs := (toImageFiles (filter is_image files) w).1) in *.
  set (w2 := (toImageFiles (filter is_image files) w).2) in *.
  split; [exact Hfresh2|]. unfold staged_ok. simpl.
  destruct (toImageFiles_frame (filter is_image files) w) as [Hsel _].
  fold w2 in Hsel. rewrite Hsel.
  split.
  - apply Forall_app. split.
    + eapply Forall_impl; [exact Hstaged|]. intros c (? & ? & ?).
      repeat split; auto.
    + apply Forall_forall. intros c Hc.
      apply list_elem_of_filter in Hc as [_ Hc].
      split; [|split].
      * assert (file c ∈ filter is_image files) as Hin
          by (rewrite <- Hfiles; apply list_elem_of_fmap; eauto).
        by apply list_elem_of_filter in Hin as [? _].
      * by apply (proj1 (Forall_forall _ _) Hids).
      * by apply (proj1 (Forall_forall _ _) Himgs).
  - rewrite fmap_app. apply NoDup_app. split; [done|]. split.
    + intros u Hu Hu'.
      apply list_elem_of_fmap in Hu as (c & -> & Hc).
      apply list_elem_of_fmap in Hu' as (c' & Heq & Hc').
      apply list_elem_of_filter in Hc' as [_ Hc'].
      apply (proj1 (Forall_forall _ _) Hstaged) in Hc as (_ & _ & Hlive).
      apply (proj1 (Forall_forall _ _) Himgs) in Hc' as [_ Hdead].
      rewrite <- Heq in Hdead. congruence.
    + eapply sublist_NoDup; [exact Hnd2|].
      apply fmap_sublist, sublist_filter.
Qed.

Lemma mount_ok env : urls_fresh (mount env) ∧ staged_ok (mount env).
Proof.
  split.
  - intros u [g Hu]. simpl in Hu. by rewrite lookup_empty in Hu.
  - split; constructor.
Qed.

Lemma reachable_staged_ok E env w :
  reachable E env w → urls_fresh w ∧ staged_ok w.
Proof.
  induction 1 as [|w ev Hw IH Hen]; [apply mount_ok|].
  destruct ev; simpl.
  - by apply (same_staging_ok w).
  - by apply (same_staging_ok w).
  - apply handleFiles_ok. by apply (same_staging_ok w).
  - by apply handleFiles_ok.
  - apply (emptied_ok w); tauto.
  - eapply same_staging_ok; [apply handleProcessImages_same_staging | done].
  - apply (emptied_ok w); tauto.
  - by apply (same_staging_ok w).
  - by apply (same_staging_ok w).
  - destruct (suspended w !! k); [|done].
    eapply same_staging_ok; [|exact IH].
    destruct (handleProcessImages_resume_same_staging E now l o (resumed k w))
      as (? & ? & ?).
    by repeat split.
Qed.

Lemma reachable_drop E env files :
  reachable E env (handle E (Drop files) (mount env)).
Proof. apply reachable_step; [apply reachable_mount|]. apply list_elem_of_here. Qed.

Lemma setSelectedFiles_same w :
  setSelectedFiles (λ prev, prev ++ []) w = w.
Proof. destruct w. unfold setSelectedFiles. simpl. by rewrite app_nil_r. Qed.

(** X1: a batch without an image file changes nothing at all: no entry
    is staged and no object URL is made. *)
Theorem handleFiles_without_images (files : list File) (w : World) :
  (∀ f, f ∈ files → ¬ is_image f) →
  handleFiles (Some files) w = w.
Proof.
  intros Hno. rewrite handleFiles_unfold.
  rewrite (filter_none is_image files) by (by apply Forall_forall).
  simpl. apply setSelectedFiles_same.
Qed.

Lemma handleFiles_without_images_witness :
  handleFiles (Some [notes_txt; notes_txt]) (mount None) = mount None.
Proof.
  apply handleFiles_without_images. intros f Hf.
  repeat (apply elem_of_cons in Hf as [->|Hf]; [by vm_compute|]).
  by apply elem_of_nil in Hf.
Defined.

(** X2: in every state the component can reach, a call makes one object
    URL for each image file of the input, also for those the dedup then
    drops; the store grows by no more than that. *)
Theorem handleFiles_one_url_per_image (E : Engine) (env : option string)
    (files : list File) (w : World) :
  reachable E env w →
  let w' := handleFiles (Some files) w in
  size (objectURLs w') = size (objectURLs w) + length (filter is_image files) ∧
  length (selectedFiles w')
  = length (selectedFiles w)
    + length (filter (λ f, (file_id f ∉ ids (selectedFiles w)) ∧ is_image f) files).
Proof.
  intros Hreach. cbv zeta.
  destruct (reachable_staged_ok E env w Hreach) as [Hfresh _].
  split.
  - rewrite handleFiles_unfold. simpl.
    by destruct (toImageFiles_urls (filter is_image files) w Hfresh) as (_ & _ & -> & _).
  - destruct (handleFiles_survivors files w) as (survivors & -> & Hfiles & _).
    by rewrite length_app, <- Hfiles, length_fmap.
Qed.

Lemma handleFiles_one_url_per_image_witness :
  let w := handle V8 (Drop (Some [a_png])) (mount None) in
  let w' := handleFiles (Some [a_png; notes_txt]) w in
  size (objectURLs w') = size (objectURLs w) + 1 ∧
  length (selectedFiles w') = length (selectedFiles w) + 0.
Proof.
  intros w w'.
  exact (handleFiles_one_url_per_image V8 None [a_png; notes_txt] w
           (reachable_drop V8 None (Some [a_png]))).
Defined.

(** X3: in every state the component can reach, the preview of every
    staged entry is an object URL that is live and resolves to the
    entry's file, and no two staged entries share a preview. *)
Theorem staged_previews_resolve (E : Engine) (env : option string) (w : World) :
  reachable E env w →
  Forall (λ f, objectURLs w !! previewUrl f = Some (file f) ∧
               ∃ k, k < objectURLCounter w ∧ previewUrl f = blob_url k)
    (selectedFiles w) ∧
  NoDup (previewUrl <$> selectedFiles w).
Proof.
  intros Hreach.
  destruct (reachable_staged_ok E env w Hreach) as [Hfresh [Hstaged Hnd]].
  split; [|done].
  eapply Forall_impl; [exact Hstaged|]. intros f (_ & _ & Hlive).
  split; [done|]. apply Hfresh. by rewrite Hlive.
Qed.

Lemma staged_previews_resolve_witness :
  NoDup (previewUrl <$> selectedFiles (handle V8 (Drop (Some [a_png; a_png])) (mount None))).
Proof.
  apply (staged_previews_resolve V8 None). apply reachable_drop.
Defined.

(** X4: in every state the component can reach, every staged entry
    holds an image file, and its id is the file's name, a hyphen and the
    file's modification time. *)
Theorem staged_entries_are_images (E : Engine) (env : option string) (w : World) :
  reachable E env w →
  Forall (λ f, is_image (file f) ∧
               id f = name (file f) +:+ "-" +:+ pretty (lastModified (file f)))
    (selectedFiles w).
Proof.
  intros Hreach.
  destruct (reachable_staged_ok E env w Hreach) as [_ [Hstaged _]].
  eapply Forall_impl; [exact Hstaged|]. by intros f (? & ? & _).
Qed.

Lemma staged_entries_are_images_witness :
  Forall (λ f, is_image (file f) ∧
               id f = name (file f) +:+ "-" +:+ pretty (lastModified (file f)))
    (selectedFiles (handle V8 (Drop (Some [a_png; notes_txt; b_png])) (mount None))).
Proof.
  apply (staged_entries_are_images V8 None). apply reachable_drop.
Defined.

(** X5: into an empty store a batch goes in full: every image file of
    the input is staged, in the order of the input, a file that occurs
    twice twice. *)
Theorem handleFiles_into_empty_store (files : list File) (w : World) :
  selectedFiles w = [] →
  file <$> selectedFiles (handleFiles (Some files) w) = filter is_image files.
Proof.
  intros Hempty.
  destruct (handleFiles_survivors files w) as (survivors & -> & Hfiles & _).
  rewrite Hempty in *. simpl. rewrite Hfiles.
  apply list_filter_iff. intros f. split; [tauto|].
  intros Himg. split; [|done]. apply not_elem_of_nil.
Qed.

Lemma handleFiles_into_empty_store_witness :
  file <$> selectedFiles
             (handleFiles (Some [a_png; notes_txt; a_png])
                (clearSelection (handleFiles (Some [a_png]) (mount None))))
  = [a_png; a_png].
Proof.
  apply (handleFiles_into_empty_store [a_png; notes_txt; a_png]
           (clearSelection (handleFiles (Some [a_png]) (mount None)))).
  reflexivity.
Defined.

(** ** What the handlers keep true of the workflow *)

Lemma bind_Normal {A B} (m : Completion A) (k : A → Completion B) (y : B) :
  m ≫= k = Normal y → ∃ a, m = Normal a ∧ k a = Normal y.
Proof. destruct m as [a|e]; [by exists a | discriminate]. Qed.

Lemma Array_map_Normal {A B} (f : A → nat → Completion B) k l ys :
  Array_map f k l = Normal ys →
  length ys = length l ∧
  ∀ i y, ys !! i = Some y → ∃ x, l !! i = Some x ∧ f x (k + i) = Normal y.
Proof.
  revert k ys. induction l as [|x l IH]; intros k ys H; simpl in H.
  - injection H as <-. split; [done|]. intros i y Hi. by rewrite lookup_nil in Hi.
  - apply bind_Normal in H as (y0 & Hy0 & H).
    apply bind_Normal in H as (ys0 & Hys0 & H). injection H as <-.
    destruct (IH _ _ Hys0) as [Hlen Hnth]. split; [simpl; by rewrite Hlen|].
    intros [|i] y Hi; simpl in Hi.
    + injection Hi as <-. exists x. by rewrite Nat.add_0_r.
    + destruct (Hnth i y Hi) as (x' & Hx' & Hf). exists x'. split; [done|].
      by replace (k + S i) with (S k + i) by lia.
Qed.

Lemma to_processed_file_null E now staged index :
  ∃ e, to_processed_file E now staged JNull index = Throw e.
Proof.
  unfold to_processed_file. destruct staged as [|f l]; simpl; by eexists.
Qed.

Lemma to_processed_file_data E now staged item index img :
  to_processed_file E now staged item index = Normal img → data_preview img.
Proof.
  unfold to_processed_file. intros H.
  repeat (apply bind_Normal in H as (? & _ & H)).
  injection H as <-. unfold data_preview. simpl.
  match goal with |- context [("" +:+ ?a) +:+ _] => by destruct a
                | |- context ["" +:+ ?a +:+ _] => by destruct a end.
Qed.

Lemma processedData_map_Normal E now staged j files :
  processedData_map E now staged j = Normal files →
  ∃ items, j = JArray items ∧ length files = length items ∧
           Forall (λ item, item ≠ JNull) items ∧ Forall data_preview files.
Proof.
  destruct j as [| | | |items|]; try discriminate. simpl. intros H.
  apply Array_map_Normal in H as [Hlen Hnth].
  exists items. split; [done|]. split; [done|]. split.
  - apply Forall_forall. intros item Hin ->.
    apply list_elem_of_lookup in Hin as [i Hi].
    destruct (lookup_lt_is_Some_2 files i) as [img Himg].
    { rewrite Hlen. by eapply lookup_lt_Some. }
    destruct (Hnth i img Himg) as (x & Hx & Hf).
    rewrite Hi in Hx. injection Hx as <-.
    destruct (to_processed_file_null E now staged (0 + i)) as [e He]. congruence.
  - apply Forall_forall. intros img Hin.
    apply list_elem_of_lookup in Hin as [i Hi].
    destruct (Hnth i img Hi) as (x & _ & Hf).
    by eapply to_processed_file_data.
Qed.

Lemma try_block_Normal E now staged o files :
  try_block E now staged o = Normal files →
  ∃ r items,
    o = Resolved r ∧ response_ok r = true ∧
    response_json r = Normal (JArray items) ∧
    length files = length items ∧
    Forall (λ item, item ≠ JNull) items ∧ Forall data_preview files.
Proof.
  destruct o as [e|r]; [discriminate|]. unfold try_block. simpl.
  destruct (response_ok r) eqn:Hok; simpl.
  - intros H. apply bind_Normal in H as (j & Hj & H).
    apply processedData_map_Normal in H as (items & -> & ? & ? & ?).
    by exists r, items.
  - intros H. exfalso. revert H.
    destruct (Get E _ "detail") as [detail|]; simpl; [|discriminate].
    destruct (ToBoolean detail); simpl; [|discriminate].
    by destruct (ToStringV E detail).
Qed.

Lemma ImageGrid_result_rendered w images :
  ImageGrid images true ∈ renderContent w →
  status w = SUCCESS ∧ images = processedFiles w.
Proof.
  unfold renderContent. rendered.
  match goal with H : ImageGrid _ _ = _ |- _ => by injection H as -> end.
Qed.

Lemma API_URL_env w env :
  VITE_API_BASE_URL w = env → API_URL w = API_URL (mount env).
Proof. intros <-. reflexivity. Qed.

(** Changing the staged files alone, outside PROCESSING. *)
Lemma workflow_ok_staging env w w' :
  same_workflow w w' → status w ≠ PROCESSING →
  workflow_ok env w → workflow_ok env w'.
Proof.
  intros (Hp & Hs & He & Hm & Hf & Hsus & _ & Henv) Hnp.
  unfold workflow_ok. rewrite Hp, Hs, He, Hm, Hf, Hsus, Henv.
  intros (? & ? & ? & Hin & ? & ? & ?). repeat split; try tauto.
  destruct (status w); tauto.
Qed.

Lemma started_request_good env w :
  VITE_API_BASE_URL w = env → staged_ok w → hasFilesSelected w = true →
  good_request env
    {| url := API_URL w +:+ "/api/process"; method := "POST";
       body := (λ imageFile : ImageFile,
                  {| entry_field := "files"; entry_blob := file imageFile;
                     entry_filename := name (file imageFile) |})
               <$> selectedFiles w |}.
Proof.
  intros Henv [Hstaged _] Hsel. unfold good_request. simpl.
  split; [done|]. split; [by rewrite (API_URL_env w env)|]. split.
  - unfold hasFilesSelected in Hsel. apply bool_decide_eq_true in Hsel.
    destruct (selectedFiles w); [simpl in Hsel; lia | done].
  - apply Forall_fmap. eapply Forall_impl; [exact Hstaged|].
    intros f (Himg & _). by repeat split.
Qed.

Lemma reachable_workflow_ok E env w : reachable E env w → workflow_ok env w.
Proof.
  induction 1 as [|w ev Hw IH Hen].
  { unfold workflow_ok. simpl. repeat split; try done; try constructor.
    all: try by intros [? ?]. }
  pose proof (reachable_staged_ok E env w Hw) as [_ Hstaged].
  destruct ev; simpl in Hen |- *.
  - exact IH.
  - exact IH.
  - apply UploadLabel_rendered in Hen.
    apply (workflow_ok_staging env (setIsDragging false w)).
    + apply handleFiles_frame.
    + simpl. destruct Hen; congruence.
    + exact IH.
  - apply UploadLabel_rendered in Hen.
    apply (workflow_ok_staging env w); [apply handleFiles_frame | | exact IH].
    destruct Hen; congruence.
  - apply ClearSelectionButton_rendered in Hen.
    apply (workflow_ok_staging env w); [by repeat split | | exact IH].
    destruct Hen; congruence.
  - apply ProcessButton_rendered in Hen as (Hs & Hsel & _).
    destruct IH as (Henv & Herr & Hres & Hsus & Hreq & Hdata & Hmodal).
    rewrite handleProcessImages_started by done.
    unfold workflow_ok. simpl.
    split; [done|]. split; [split; [by intros [? ?] | discriminate]|].
    split; [intros _; apply Hres; destruct Hs; congruence|].
    split.
    { assert (suspended w = []) as -> by (destruct Hs as [Hs|Hs]; by rewrite Hs in Hsus).
      split; [done|]. unfold hasFilesSelected in Hsel.
      apply bool_decide_eq_true in Hsel.
      destruct (selectedFiles w); [simpl in Hsel; lia | done]. }
    split; [|done].
    apply Forall_app. split; [done|]. constructor; [|constructor].
    by apply started_request_good.
  - apply ProcessMoreButton_rendered in Hen.
    destruct IH as (Henv & Herr & Hres & Hsus & Hreq & Hdata & Hmodal).
    unfold workflow_ok. simpl. rewrite Hen in Hsus.
    repeat split; try done; try constructor.
    all: try by intros [? ?].
  - destruct Hen as (images & Hgrid & Hin).
    apply ImageGrid_result_rendered in Hgrid as [_ ->].
    destruct IH as (Henv & Herr & Hres & Hsus & Hreq & Hdata & Hmodal).
    unfold workflow_ok. simpl. repeat split; try tauto.
    intros img [= <-]. by apply (proj1 (Forall_forall _ _) Hdata).
  - destruct IH as (Henv & Herr & Hres & Hsus & Hreq & Hdata & Hmodal).
    unfold workflow_ok. simpl. repeat split; try tauto. discriminate.
  - destruct IH as (Henv & Herr & Hres & Hsus & Hreq & Hdata & Hmodal).
    destruct (status w) eqn:Hs; try (rewrite Hsus in Hen; simpl in Hen; lia).
    destruct Hsus as [Hsus Hne]. rewrite Hsus in Hen |- *.
    assert (k = 0) as -> by (simpl in Hen; lia). simpl.
    assert (error w = None) as Hnone.
    { destruct (error w) eqn:He; [|done].
      assert (PROCESSING = ERROR) by (apply Herr; eauto). discriminate. }
    unfold handleProcessImages_resume.
    destruct (try_block E now (selectedFiles w) o) as [files|err] eqn:Htry.
    + apply try_block_Normal in Htry as (r & items & _ & _ & _ & _ & _ & Hfiles).
      unfold workflow_ok. simpl. rewrite Hsus, Hnone. simpl.
      repeat split; try done.
      all: try by intros [? ?].
    + unfold workflow_ok. simpl. rewrite Hsus. simpl.
      repeat split; try done; eauto.
      all: try (intros _; apply Hres; discriminate).
Qed.

Lemma reachable_processing_a_png : reachable V8 None processing_a_png.
Proof.
  apply reachable_step; [apply reachable_drop|].
  vm_compute. repeat constructor.
Qed.

Lemma reachable_settled o now :
  reachable V8 None (handle V8 (FetchSettles 0 o now) processing_a_png).
Proof.
  apply reachable_step; [apply reachable_processing_a_png|].
  vm_compute. lia.
Qed.

Lemma transition_refl s : transition s s = true.
Proof. by destruct s. Qed.

(** X6: while PROCESSING, in every state the component can reach, the
    one suspended handler holds exactly the staged files, which are not
    empty, and nothing that can happen changes the staged files. *)
Theorem processing_freezes_staging (E : Engine) (env : option string) (w : World) :
  reachable E env w →
  status w = PROCESSING →
  suspended w = [selectedFiles w] ∧
  selectedFiles w ≠ [] ∧
  ∀ ev, enabled ev w → selectedFiles (handle E ev w) = selectedFiles w.
Proof.
  intros Hreach Hs.
  destruct (reachable_workflow_ok E env w Hreach) as (_ & _ & _ & Hsus & _).
  rewrite Hs in Hsus. destruct Hsus as [Hsus Hne].
  split; [done|]. split; [done|].
  intros ev Hen. destruct ev; simpl in Hen |- *; try done.
  - apply UploadLabel_rendered in Hen as [?|?]; congruence.
  - apply UploadLabel_rendered in Hen as [?|?]; congruence.
  - apply ClearSelectionButton_rendered in Hen as [?|?]; congruence.
  - apply ProcessButton_rendered in Hen as ([?|?] & _); congruence.
  - apply ProcessMoreButton_rendered in Hen. congruence.
  - destruct (suspended w !! k); [|done].
    apply (handleProcessImages_resume_same_staging E now l o (resumed k w)).
Qed.

Lemma processing_freezes_staging_witness :
  suspended processing_a_png = [selectedFiles processing_a_png] ∧
  selectedFiles processing_a_png ≠ [].
Proof.
  destruct (processing_freezes_staging V8 None processing_a_png
              reachable_processing_a_png eq_refl) as (H1 & H2 & _).
  by split.
Defined.

(** X7: every request the component has sent, in every state it can
    reach, is a POST to the configured base URL followed by
    [/api/process], with a body that is not empty and holds only image
    files, each under the field [files] and with its own name. *)
Theorem requests_are_image_batches (E : Engine) (env : option string) (w : World) :
  reachable E env w →
  Forall
    (λ r, method r = "POST" ∧
          url r = API_URL (mount env) +:+ "/api/process" ∧
          body r ≠ [] ∧
          Forall (λ e, entry_field e = "files" ∧
                       entry_filename e = name (entry_blob e) ∧
                       is_image (entry_blob e))
            (body r))
    (fetches w).
Proof.
  intros Hreach.
  by destruct (reachable_workflow_ok E env w Hreach) as (_ & _ & _ & _ & Hreq & _).
Qed.

Lemma requests_are_image_batches_witness :
  Forall
    (λ r, method r = "POST" ∧
          url r = "http://127.0.0.1:8000/api/process" ∧
          body r ≠ [] ∧
          Forall (λ e, entry_field e = "files" ∧
                       entry_filename e = name (entry_blob e) ∧
                       is_image (entry_blob e))
            (body r))
    (fetches processing_a_png).
Proof.
  exact (requests_are_image_batches V8 None processing_a_png
           reachable_processing_a_png).
Defined.

(** X8: in every state the component can reach, there is an error
    message exactly when the status is ERROR, and there are results
    only when the status is SUCCESS. *)
Theorem error_exactly_in_ERROR (E : Engine) (env : option string) (w : World) :
  reachable E env w →
  (is_Some (error w) ↔ status w = ERROR) ∧
  (status w ≠ SUCCESS → processedFiles w = []).
Proof.
  intros Hreach.
  by destruct (reachable_workflow_ok E env w Hreach) as (_ & ? & ? & _).
Qed.

Lemma error_exactly_in_ERROR_witness :
  let w := handle V8 (FetchSettles 0 (Resolved model_unavailable) epoch) processing_a_png in
  (is_Some (error w) ↔ status w = ERROR) ∧
  (status w ≠ SUCCESS → processedFiles w = []).
Proof.
  intros w. apply (error_exactly_in_ERROR V8 None w). apply reachable_settled.
Defined.

(** X9: the status moves only along IDLE -> PROCESSING, PROCESSING ->
    SUCCESS, PROCESSING -> ERROR, SUCCESS -> IDLE and ERROR ->
    PROCESSING, or stays: nothing the user or the service can do takes
    the component from ERROR to IDLE or SUCCESS, or from SUCCESS to
    PROCESSING or ERROR. *)
Theorem status_moves (E : Engine) (env : option string) (w : World) (ev : Event) :
  reachable E env w →
  enabled ev w →
  transition (status w) (status (handle E ev w)) = true.
Proof.
  intros Hreach Hen.
  destruct (reachable_workflow_ok E env w Hreach) as (_ & _ & _ & Hsus & _).
  destruct ev; simpl in Hen |- *; try apply transition_refl.
  - unfold handleDrop.
    destruct (handleFiles_frame files (setIsDragging false w)) as [(_ & -> & _) _].
    apply transition_refl.
  - unfold handleFileChange.
    destruct (handleFiles_frame files w) as [(_ & -> & _) _].
    apply transition_refl.
  - apply ProcessButton_rendered in Hen as (Hs & Hsel & _).
    rewrite handleProcessImages_started by done. simpl.
    by destruct Hs as [-> | ->].
  - apply ProcessMoreButton_rendered in Hen. by rewrite Hen.
  - destruct (status w) eqn:Hs; try (rewrite Hsus in Hen; simpl in Hen; lia).
    destruct (suspended w !! k); [|by rewrite Hs].
    unfold handleProcessImages_resume. by destruct (try_block E now l o).
Qed.

Lemma status_moves_witness :
  transition (status processing_a_png)
    (status (handle V8 (FetchSettles 0 (Resolved ok_a_png) epoch) processing_a_png))
  = true.
Proof.
  apply (status_moves V8 None processing_a_png); [apply reachable_processing_a_png|].
  vm_compute. lia.
Defined.

Lemma blob_url_prefix k : String.prefix "blob:" (blob_url k).
Proof. unfold blob_url. simpl. by destruct (pretty k). Qed.

(** X10: in every state the component can reach, the previews of the
    staged entries are object URLs ([blob:]) while the pictures of the
    results, and the picture in the modal when it is open, are data
    URIs ([data:]): the modal never shows a staged preview. *)
Theorem modal_shows_results_only (E : Engine) (env : option string) (w : World) :
  reachable E env w →
  Forall (λ f, String.prefix "blob:" (previewUrl f)) (selectedFiles w) ∧
  Forall (λ f, String.prefix "data:" (previewUrl f)) (processedFiles w) ∧
  ∀ image, modalImage w = Some image → String.prefix "data:" (previewUrl image).
Proof.
  intros Hreach.
  destruct (reachable_workflow_ok E env w Hreach) as (_ & _ & _ & _ & _ & Hdata & Hmodal).
  destruct (reachable_staged_ok E env w Hreach) as [Hfresh [Hstaged _]].
  split; [|by split].
  eapply Forall_impl; [exact Hstaged|]. intros f (_ & _ & Hlive).
  destruct (Hfresh (previewUrl f)) as (k & _ & ->); [by rewrite Hlive|].
  apply blob_url_prefix.
Qed.

Lemma modal_shows_results_only_witness :
  let w := handle V8 (FetchSettles 0 (Resolved ok_a_png) epoch) processing_a_png in
  Forall (λ f, String.prefix "blob:" (previewUrl f)) (selectedFiles w) ∧
  Forall (λ f, String.prefix "data:" (previewUrl f)) (processedFiles w).
Proof.
  intros w.
  destruct (modal_shows_results_only V8 None w (reachable_settled _ _)) as (H1 & H2 & _).
  by split.
Defined.

(** ** What the service can answer *)

(** X11: the component enters SUCCESS only when [fetch] resolved with a
    2xx status and a body that is a JSON array without [null] in it,
    and then it shows exactly one entry per element of the array. *)
Theorem success_only_from_ok_array (E : Engine) (now : nat → Z)
    (captured : list ImageFile) (o : FetchOutcome) (w : World) :
  status (handleProcessImages_resume E now captured o w) = SUCCESS →
  ∃ r items,
    o = Resolved r ∧
    response_ok r = true ∧
    response_json r = Normal (JArray items) ∧
    Forall (λ item, item ≠ JNull) items ∧
    length (processedFiles (handleProcessImages_resume E now captured o w))
    = length items.
Proof.
  unfold handleProcessImages_resume.
  destruct (try_block E now captured o) as [files|err] eqn:Htry; [|discriminate].
  intros _. apply try_block_Normal in Htry as (r & items & ? & ? & ? & ? & ? & _).
  by exists r, items.
Qed.

Lemma success_only_from_ok_array_witness :
  ∃ r items,
    Resolved ok_a_png = Resolved r ∧
    response_ok r = true ∧
    response_json r = Normal (JArray items) ∧
    Forall (λ item, item ≠ JNull) items ∧
    length (processedFiles
              (handleProcessImages_resume V8 epoch [staged_a] (Resolved ok_a_png)
                 processing_a_png))
    = length items.
Proof.
  apply (success_only_from_ok_array V8 epoch [staged_a] (Resolved ok_a_png)
           processing_a_png).
  reflexivity.
Defined.

(** X12: when [fetch] rejects with an [Error], or a 2xx response's
    [json()] does, the component enters ERROR showing that error's
    message as it is, logs the error, and leaves the results. *)
Theorem rejection_shown_verbatim (E : Engine) (now : nat → Z)
    (captured : list ImageFile) (o : FetchOutcome) (message : string) (w : World) :
  o = Rejected (ErrorObject message) ∨
  (∃ r, o = Resolved r ∧ response_ok r = true ∧
        response_json r = Throw (ErrorObject message)) →
  let w' := handleProcessImages_resume E now captured o w in
  status w' = ERROR ∧
  error w' = Some message ∧
  processedFiles w' = processedFiles w ∧
  console w' = console w ++ [ErrorObject message].
Proof.
  intros Ho. cbv zeta.
  rewrite (resume_Throw _ _ _ _ _ message); [done|].
  destruct Ho as [-> | (r & -> & Hok & Hjson)]; [done|].
  by rewrite try_block_ok, Hjson.
Qed.

Lemma rejection_shown_verbatim_witness :
  error (handleProcessImages_resume V8 epoch [staged_a]
           (Rejected (ErrorObject "Failed to fetch")) processing_a_png)
  = Some "Failed to fetch".
Proof.
  apply (rejection_shown_verbatim V8 epoch [staged_a]
           (Rejected (ErrorObject "Failed to fetch")) "Failed to fetch"
           processing_a_png).
  by left.
Defined.

Lemma find_nothing {A} (l : list A) : List.find (λ _, false) l = None.
Proof. by induction l. Qed.

Lemma to_processed_file_lacking E now staged item index :
  lacks_fields E item →
  to_processed_file E now staged item index = Normal (undefined_entry now index).
Proof.
  intros (Hfn & Hct & Hb64). unfold to_processed_file.
  rewrite (Array_find_total _ (λ _, false)) by (intros f; by rewrite Hfn).
  rewrite find_nothing. simpl. by rewrite Hfn, Hct, Hb64.
Qed.

Lemma Array_map_lacking E now staged items k :
  Forall (lacks_fields E) items →
  Array_map (to_processed_file E now staged) k items
  = Normal (imap (λ i _, undefined_entry now (k + i)) items).
Proof.
  intros H. revert k. induction H as [|item items Hitem _ IH]; intros k; [done|].
  simpl. rewrite to_processed_file_lacking by done. simpl.
  rewrite IH. simpl. rewrite Nat.add_0_r. do 2 f_equal.
  apply imap_ext. intros i x _. simpl. f_equal. lia.
Qed.

(** X13: a 2xx array whose elements carry none of the three fields is
    not refused: the component enters SUCCESS, and each element shows
    as an entry named [undefined] with id [undefined-index] and the
    picture [data:undefined;base64,undefined], whatever is staged. *)
Theorem missing_fields_still_succeed (E : Engine) (now : nat → Z)
    (captured : list ImageFile) (r : Response) (items : list JSON) (w : World) :
  response_ok r = true →
  response_json r = Normal (JArray items) →
  Forall (lacks_fields E) items →
  let w' := handleProcessImages_resume E now captured (Resolved r) w in
  status w' = SUCCESS ∧
  processedFiles w' = imap (λ i _, undefined_entry now i) items.
Proof.
  intros Hok Hjson Hitems. cbv zeta.
  rewrite (resume_Normal _ _ _ _ _ (imap (λ i _, undefined_entry now i) items));
    [done|].
  rewrite try_block_ok, Hjson by done. simpl.
  by rewrite Array_map_lacking.
Qed.

Lemma missing_fields_still_succeed_witness :
  let r := {| response_status := 200;
              response_json := Normal (JArray [JObject []; JNumber "5"]) |} in
  let undefined_png :=
    {| id := "undefined-1"; file := new_File "undefined" 1; previewUrl := "blob:0" |} in
  processedFiles
    (handleProcessImages_resume V8 epoch [undefined_png] (Resolved r) processing_a_png)
  = [undefined_entry epoch 0; undefined_entry epoch 1].
Proof.
  intros r undefined_png.
  apply (missing_fields_still_succeed V8 epoch [undefined_png] r
           [JObject []; JNumber "5"] processing_a_png); [reflexivity..|].
  repeat constructor.
Defined.



(** ** The view *)

(** X15: a click in the modal closes it exactly when it lands on the
    backdrop or on the close button (or the glyph in it), and then
    [onClose] runs once; a click on the panel, the heading or the
    picture changes nothing. *)
Theorem ImageModal_click_closes {S} (onClose : S → S) (target : ModalElement) (s : S) :
  ImageModal_click onClose target s
  = match target with
    | Backdrop | CloseButton | CloseIconGlyph => onClose s
    | Panel | Heading | Picture => s
    end.
Proof. by destruct target. Qed.

(** X16: whenever the "Process" button is rendered it is enabled, and
    files are staged: its [disabled={isProcessing}] never holds, since
    the branch that renders it is not taken while PROCESSING. *)
Theorem ProcessButton_never_disabled (w : World) (disabled : bool) :
  ProcessButton disabled ∈ renderContent w →
  disabled = false ∧ selectedFiles w ≠ [] ∧ status w ≠ PROCESSING.
Proof.
  intros H. apply ProcessButton_rendered in H as (Hs & Hsel & ->).
  split; [done|]. split.
  - unfold hasFilesSelected in Hsel. apply bool_decide_eq_true in Hsel.
    destruct (selectedFiles w); [simpl in Hsel; lia | done].
  - destruct Hs; congruence.
Qed.

Lemma ProcessButton_never_disabled_witness :
  selectedFiles (handle V8 (Drop (Some [a_png])) (mount None)) ≠ [] ∧
  status (handle V8 (Drop (Some [a_png])) (mount None)) ≠ PROCESSING.
Proof.
  destruct (ProcessButton_never_disabled
              (handle V8 (Drop (Some [a_png])) (mount None)) false) as (_ & H1 & H2).
  - vm_compute. repeat constructor.
  - by split.
Defined.

(** X17: after the reset the view is that of the component as first
    mounted, the upload control alone, whatever the state was; an open
    modal stays open, and so does the drag highlight. *)
Theorem handleReset_view (env : option string) (w : World) :
  renderContent (handleReset w) = renderContent (mount env) ∧
  renderContent (handleReset w) = [UploadLabel] ∧
  modalImage (handleReset w) = modalImage w ∧
  isDragging (handleReset w) = isDragging w ∧
  handleReset (handleReset w) = handleReset w.
Proof. by repeat split. Qed.

(** ** The id of a file *)

Lemma app_String c a b : String c a +:+ b = String c (a +:+ b).
Proof. reflexivity. Qed.

Lemma app_Empty b : "" +:+ b = b.
Proof. reflexivity. Qed.

Lemma dash_free_dash a b : dash_free (a +:+ "-" +:+ b) = false.
Proof.
  induction a as [|c a IH]; [done|].
  rewrite app_String. simpl. rewrite IH. apply andb_false_r.
Qed.

(** A string is cut in one way only at its last hyphen. *)
Lemma cut_at_last_dash n1 n2 p1 p2 :
  dash_free p1 = true → dash_free p2 = true →
  n1 +:+ "-" +:+ p1 = n2 +:+ "-" +:+ p2 →
  n1 = n2 ∧ p1 = p2.
Proof.
  intros Hp1 Hp2. revert n2.
  induction n1 as [|c n1 IH]; intros [|c' n2] H.
  - by injection H.
  - rewrite (app_String c' n2) in H. injection H as _ H.
    change (p1 = n2 +:+ "-" +:+ p2) in H. subst p1.
    by rewrite dash_free_dash in Hp1.
  - rewrite (app_String c n1) in H. injection H as _ H.
    change (n1 +:+ "-" +:+ p1 = p2) in H. subst p2.
    by rewrite dash_free_dash in Hp2.
  - rewrite (app_String c n1), (app_String c' n2) in H. injection H as -> H.
    destruct (IH _ H) as [-> ->]. done.
Qed.

Lemma dash_free_pretty_N_go (x : N) (s : string) :
  dash_free s = true → dash_free (pretty_N_go x s) = true.
Proof.
  revert s. induction (N.lt_wf_0 x) as [x _ IH]; intros s Hs.
  assert (x = 0 ∨ 0 < x)%N as [->|Hx] by lia.
  - by rewrite pretty_N_go_0.
  - rewrite pretty_N_go_step by done. apply IH; [by apply N.div_lt|].
    simpl. rewrite Hs. unfold pretty_N_char. by repeat case_match.
Qed.

Lemma dash_free_pretty_Z (z : Z) : (0 ≤ z)%Z → dash_free (pretty z) = true.
Proof.
  destruct z as [|p|p]; [done| |lia]. intros _.
  unfold pretty, pretty_Z, pretty, pretty_positive, pretty, pretty_N.
  destruct (decide _); [done|]. by apply dash_free_pretty_N_go.
Qed.

(** X18: among files whose modification time is not negative and is
    an integer that a Number holds exactly (at most 2^53), two have the
    same id only if they have the same name and the same modification
    time: the dedup never takes two such files of different name or
    time for one. *)
Theorem file_id_inj (f g : File) :
  (0 ≤ lastModified f ≤ 2 ^ 53)%Z →
  (0 ≤ lastModified g ≤ 2 ^ 53)%Z →
  file_id f = file_id g →
  name f = name g ∧ lastModified f = lastModified g.
Proof.
  intros [Hf _] [Hg _] Hid. unfold file_id in Hid.
  apply cut_at_last_dash in Hid as [Hname Htime];
    [|by apply dash_free_pretty_Z..].
  split; [done|]. by apply (inj pretty).
Qed.

Lemma file_id_inj_witness :
  let a_jpeg := {| name := "a.png"; type := "image/jpeg";
                   lastModified := 1700000000000; content := [] |} in
  name a_png = name a_jpeg ∧ lastModified a_png = lastModified a_jpeg.
Proof.
  intros a_jpeg.
  apply (file_id_inj a_png a_jpeg); [by vm_compute | by vm_compute | reflexivity].
Defined.

(** ** The error text *)

Lemma ErrorText_rendered w m :
  ErrorText m ∈ renderContent w ↔
  (status w = IDLE ∨ status w = ERROR) ∧ error w = Some m ∧ m ≠ "".
Proof.
  split.
  - unfold renderContent. rendered.
    all: match goal with H : ErrorText _ = _ |- _ => injection H as -> end.
    all: auto.
  - intros (Hs & He & Hm). unfold renderContent. rewrite He.
    destruct (decide (m = "")); [done|].
    destruct Hs as [-> | ->];
      apply elem_of_app; right; apply elem_of_app; left; apply list_elem_of_here.
Qed.

(** X19: an error text on the screen stays there, in every state the
    component can reach, through everything that can happen but a
    click on "Process": adding files or clearing the selection does
    not remove it. *)
Theorem error_text_stays (E : Engine) (env : option string) (w : World)
    (ev : Event) (m : string) :
  reachable E env w →
  ErrorText m ∈ renderContent w →
  enabled ev w →
  ev ≠ ClickProcess →
  ErrorText m ∈ renderContent (handle E ev w).
Proof.
  intros Hreach Htext Hen Hev.
  destruct (reachable_workflow_ok E env w Hreach) as (_ & _ & _ & Hsus & _).
  apply ErrorText_rendered in Htext as (Hs & He & Hm).
  apply ErrorText_rendered.
  destruct ev; simpl in Hen |- *; try done.
  - unfold handleDrop.
    destruct (handleFiles_frame files (setIsDragging false w)) as [(_ & -> & -> & _) _].
    done.
  - unfold handleFileChange.
    destruct (handleFiles_frame files w) as [(_ & -> & -> & _) _]. done.
  - apply ProcessMoreButton_rendered in Hen. destruct Hs; congruence.
  - destruct Hs as [Hs|Hs]; rewrite Hs in Hsus; rewrite Hsus in Hen;
      simpl in Hen; lia.
Qed.

Lemma error_text_stays_witness :
  let w := handle V8 (FetchSettles 0 (Resolved model_unavailable) epoch) processing_a_png in
  ErrorText "model unavailable" ∈ renderContent (handle V8 (Drop (Some [b_png])) w).
Proof.
  intros w.
  apply (error_text_stays V8 None w (Drop (Some [b_png])) "model unavailable").
  - apply reachable_settled.
  - vm_compute. repeat constructor.
  - vm_compute. repeat constructor.
  - discriminate.
Defined.

(** X20: a response that is not ok and whose [detail] is truthy but
    reads as the empty string (an empty array, say) puts the component
    in ERROR with an empty message, and then no error text is rendered
    at all. *)
Theorem empty_detail_text_hides_error (E : Engine) (now : nat → Z)
    (captured : list ImageFile) (r : Response)
    (members : list (string * JSON)) (detail : JSON) (w : World) :
  response_ok r = false →
  response_json r = Normal (JObject members) →
  own_property "detail" members = Some detail →
  ToBoolean (Some detail) = true →
  ToString E detail = Normal "" →
  let w' := handleProcessImages_resume E now captured (Resolved r) w in
  status w' = ERROR ∧
  error w' = Some "" ∧
  ∀ m, ErrorText m ∉ renderContent w'.
Proof.
  intros Hok Hjson Hdetail Htruthy Htext. cbv zeta.
  rewrite (resume_Throw _ _ _ _ _ "").
  2:{ unfold try_block. simpl. rewrite Hok, Hjson. simpl.
      rewrite Hdetail. simpl in *. by rewrite Htruthy, Htext. }
  split; [done|]. split; [done|].
  intros m Hm. apply ErrorText_rendered in Hm as (_ & Herr & Hne).
  simpl in Herr. congruence.
Qed.

Lemma empty_detail_text_hides_error_witness :
  let r := {| response_status := 422;
              response_json := Normal (JObject [("detail", JArray [])]) |} in
  let w := handle V8 (FetchSettles 0 (Resolved r) epoch) processing_a_png in
  status w = ERROR ∧ error w = Some "" ∧ ∀ m, ErrorText m ∉ renderContent w.
Proof.
  intros r w.
  exact (empty_detail_text_hides_error V8 epoch (selectedFiles processing_a_png) r
           [("detail", JArray [])] (JArray []) (resumed 0 processing_a_png)
           eq_refl eq_refl eq_refl eq_refl eq_refl).
Defined.
